(** * xyplug-ai: a shallow embedding of [index.js]

    The plugin reads one job from standard input, resolves a provider, a
    model and an API key, issues one text-generation request, and writes
    a JSON envelope to standard output.

    Modelling conventions.
    - A JavaScript string is a Rocq [string], one [ascii] per UTF-16 code
      unit; only the code units 0..255 are representable.
    - A JavaScript value is a [JsVal]: the values [JSON.parse] can build,
      plus [undefined].  Numbers are exact decimals [m * 10^e]; IEEE-754
      rounding, overflow and underflow are not modelled.
    - Both conventions are exact on a fragment only, which [Json.narrow],
      [Json.exact_number] and [Json.exact] decide.  Outside of it a
      string or a number of the embedding is a stand-in: which texts
      parse, and the shape of what they give, is still that of the
      engine, but the characters of a string built from an escape above
      code unit 255 and the magnitude of a number that a double would round,
      overflow or underflow are not.  Every statement that reads such a
      string or number back is made for the runs that stay inside the
      fragment ([exact_input], [exact_request], [exact_run]).
    - Exceptions are [Error] instances carrying a message ([Throw msg]).
      The wording of engine-raised messages is V8's.
    - The provider SDKs and the network are one oracle of the [World]. *)

From Stdlib Require Import Strings.String Strings.Ascii List ZArith Lia Bool.
From Stdlib Require Import Numbers.DecimalString Numbers.DecimalN Numbers.DecimalPos.
Import ListNotations.
Open Scope list_scope.
Open Scope string_scope.

(** ** Exceptions *)

Inductive Exc (A : Type) : Type :=
| Ok (a : A)
| Throw (msg : string).

Arguments Ok {A} a.
Arguments Throw {A} msg.

Definition ebind {A B : Type} (x : Exc A) (k : A -> Exc B) : Exc B :=
  match x with
  | Ok a => k a
  | Throw msg => Throw msg
  end.

Notation "x <- e1 ;; e2" := (ebind e1 (fun x => e2))
  (at level 61, e1 at next level, right associativity).

(** ** Strings *)

Module Str.

(** ECMAScript [WhiteSpace] and [LineTerminator] code units below 256:
    TAB, LF, VT, FF, CR, SP and NBSP.  [String.prototype.trim] and the
    regular-expression class [\s] both use this set. *)
Definition is_space (c : ascii) : bool :=
  match c with
  | "009"%char | "010"%char | "011"%char | "012"%char | "013"%char
  | " "%char | "160"%char => true
  | _ => false
  end.

Fixpoint trimStart (s : string) : string :=
  match s with
  | String c r => if is_space c then trimStart r else s
  | EmptyString => EmptyString
  end.

Fixpoint trimEnd (s : string) : string :=
  match s with
  | EmptyString => EmptyString
  | String c r =>
      match trimEnd r with
      | EmptyString => if is_space c then EmptyString else String c EmptyString
      | r' => String c r'
      end
  end.

(** [s.trim()] *)
Definition trim (s : string) : string := trimEnd (trimStart s).

(** Lower-casing of one code unit: A-Z and the Latin-1 capitals
    U+00C0..U+00DE (except the multiplication sign U+00D7). *)
Definition lower_char (c : ascii) : ascii :=
  let n := N_of_ascii c in
  if ((65 <=? n) && (n <=? 90) ||
      (192 <=? n) && (n <=? 222) && negb (n =? 215))%N
  then ascii_of_N (n + 32) else c.

(** [s.toLowerCase()] *)
Fixpoint toLowerCase (s : string) : string :=
  match s with
  | EmptyString => EmptyString
  | String c r => String (lower_char c) (toLowerCase r)
  end.

(** [s.startsWith(p)] *)
Definition startsWith (p s : string) : bool := prefix p s.

Arguments startsWith : simpl never.

(** [s.endsWith(p)] *)
Fixpoint endsWith (p s : string) : bool :=
  (s =? p) ||
  match s with
  | EmptyString => false
  | String _ r => endsWith p r
  end.

(** [s.slice(n)] for [n >= 0] *)
Fixpoint slice (n : nat) (s : string) : string :=
  match n, s with
  | O, _ => s
  | S n', String _ r => slice n' r
  | S _, EmptyString => EmptyString
  end.

(** Prepend a code unit to the first piece of a split. *)
Definition push (c : ascii) (pieces : list string) : list string :=
  match pieces with
  | h :: t => String c h :: t
  | [] => [String c EmptyString]
  end.

(** [s.split("/")] *)
Fixpoint split_slash (s : string) : list string :=
  match s with
  | EmptyString => [EmptyString]
  | String c r =>
      if (c =? "/")%char then EmptyString :: split_slash r
      else push c (split_slash r)
  end.

(** [s.split(/\r?\n|,/)]: the separators are CR LF, LF and the comma.
    A CR that is not followed by LF is ordinary text. *)
Fixpoint split_stop (s : string) : list string :=
  match s with
  | EmptyString => [EmptyString]
  | String c r =>
      if (c =? "010")%char || (c =? ",")%char then EmptyString :: split_stop r
      else if (c =? "013")%char then
        match r with
        | String "010"%char r' => EmptyString :: split_stop r'
        | _ => push c (split_stop r)
        end
      else push c (split_stop r)
  end.

(** [parts.join(sep)] on an array of strings *)
Definition join (sep : string) (parts : list string) : string :=
  String.concat sep parts.

(** [s.includes(p)] *)
Fixpoint includes (p s : string) : bool :=
  startsWith p s ||
  match s with
  | EmptyString => false
  | String _ r => includes p r
  end.

(** Every code unit of [s] satisfies [P]. *)
Fixpoint all_chars (P : ascii -> bool) (s : string) : bool :=
  match s with
  | EmptyString => true
  | String c r => P c && all_chars P r
  end.

(** [Boolean(s)] for a string: non-empty. *)
Definition nonempty (s : string) : bool :=
  match s with
  | EmptyString => false
  | String _ _ => true
  end.

End Str.

(** ** Values *)

#[warnings="-register-all"]
Inductive JsVal : Type :=
| JUndefined
| JNull
| JBool (b : bool)
| JNum (m e : Z)                        (* the number [m * 10^e] *)
| JString (s : string)
| JArray (elems : list JsVal)
| JObject (props : list (string * JsVal)).

(** Own property of an object literal or of a parsed object. *)
Fixpoint own_get (key : string) (props : list (string * JsVal)) : option JsVal :=
  match props with
  | [] => None
  | (k, v) :: rest => if k =? key then Some v else own_get key rest
  end.

Definition has_own (key : string) (props : list (string * JsVal)) : bool :=
  match own_get key props with
  | Some _ => true
  | None => false
  end.

(** [ToBoolean] *)
Definition truthy (v : JsVal) : bool :=
  match v with
  | JUndefined | JNull => false
  | JBool b => b
  | JNum m _ => negb (m =? 0)%Z
  | JString s => Str.nonempty s
  | JArray _ | JObject _ => true
  end.

(** [a || b] *)
Definition js_or (a b : JsVal) : JsVal := if truthy a then a else b.

(** [v.key] for a key that names no built-in member ([params], [prompt],
    [model], ...): reading from [undefined] or [null] throws, a parsed
    object yields its own property, every other value yields
    [undefined]. *)
Definition js_get (v : JsVal) (key : string) : Exc JsVal :=
  match v with
  | JUndefined =>
      Throw ("Cannot read properties of undefined (reading '" ++ key ++ "')")
  | JNull =>
      Throw ("Cannot read properties of null (reading '" ++ key ++ "')")
  | JObject props =>
      Ok (match own_get key props with Some x => x | None => JUndefined end)
  | _ => Ok JUndefined
  end.

(** ** Number to string *)

Module Num.

(** The code units a printed number is made of. *)
Definition number_char (c : ascii) : bool :=
  let n := N_of_ascii c in
  ((48 <=? n) && (n <=? 57))%N ||
  (c =? ".")%char || (c =? "e")%char || (c =? "+")%char || (c =? "-")%char.

Fixpoint zeros (n : nat) : string :=
  match n with
  | O => EmptyString
  | S n' => String "0"%char (zeros n')
  end.

Fixpoint strip_zeros (s : string) : string :=
  match s with
  | EmptyString => EmptyString
  | String c r =>
      match strip_zeros r with
      | EmptyString => if (c =? "0")%char then EmptyString else String c EmptyString
      | r' => String c r'
      end
  end.

Definition nat_digits (n : N) : string := NilEmpty.string_of_uint (N.to_uint n).

(** [Number::toString] in radix 10 for the positive number [p * 10^e]:
    with [k] significant digits [s] and [value = s * 10^(n-k)], the four
    cases of the standard. *)
Definition positive_to_string (p : positive) (e : Z) : string :=
  let all := nat_digits (Npos p) in
  let s := strip_zeros all in
  let k := String.length s in
  let n := (Z.of_nat (String.length all) + e)%Z in
  let kz := Z.of_nat k in
  if ((kz <=? n) && (n <=? 21))%Z then
    s ++ zeros (Z.to_nat (n - kz))
  else if ((0 <? n) && (n <=? 21))%Z then
    substring 0 (Z.to_nat n) s ++ "." ++ substring (Z.to_nat n) (k - Z.to_nat n) s
  else if ((-6 <? n) && (n <=? 0))%Z then
    "0." ++ zeros (Z.to_nat (- n)) ++ s
  else
    let ex := (n - 1)%Z in
    let sign := if (ex <? 0)%Z then "-" else "+" in
    let mant :=
      match s with
      | String d EmptyString => String d EmptyString
      | String d rest => String d ("." ++ rest)
      | EmptyString => EmptyString
      end in
    mant ++ "e" ++ sign ++ nat_digits (Z.abs_N ex).

Definition to_string (m e : Z) : string :=
  match m with
  | Z0 => "0"
  | Zpos p => positive_to_string p e
  | Zneg p => "-" ++ positive_to_string p e
  end.

End Num.

(** ** String coercion *)

(** [String(v)].  An array is joined with commas, [null] and [undefined]
    elements giving the empty string.  A parsed object has no callable
    [toString] of its own: it prints as [[object Object]] through the
    inherited method, unless an own property named [toString] shadows
    it, in which case the conversion throws. *)
Fixpoint js_String (v : JsVal) : Exc string :=
  match v with
  | JUndefined => Ok "undefined"
  | JNull => Ok "null"
  | JBool true => Ok "true"
  | JBool false => Ok "false"
  | JNum m e => Ok (Num.to_string m e)
  | JString s => Ok s
  | JArray elems =>
      (fix join_elems (l : list JsVal) : Exc string :=
         match l with
         | [] => Ok ""
         | x :: rest =>
             sx <- match x with
                   | JUndefined | JNull => Ok ""
                   | _ => js_String x
                   end ;;
             match rest with
             | [] => Ok sx
             | _ :: _ => sr <- join_elems rest ;; Ok (sx ++ "," ++ sr)
             end
         end) elems
  | JObject props =>
      if has_own "toString" props
      then Throw "Cannot convert object to primitive value"
      else Ok "[object Object]"
  end.

(** [values.map(String)] *)
Fixpoint map_String (l : list JsVal) : Exc (list string) :=
  match l with
  | [] => Ok []
  | x :: rest =>
      sx <- js_String x ;;
      sr <- map_String rest ;;
      Ok (sx :: sr)
  end.

(** ** Parameter normalizer *)

(** [parseStopSequences(value)] *)
Definition parseStopSequences (value : JsVal) : Exc JsVal :=
  if negb (truthy value) then Ok JUndefined
  else
    match value with
    | JArray elems =>
        strs <- map_String elems ;;
        Ok (JArray (map JString (filter Str.nonempty strs)))
    | _ =>
        s <- js_String value ;;
        let parts := filter Str.nonempty (map Str.trim (Str.split_stop s)) in
        Ok (match parts with
            | [] => JUndefined
            | _ :: _ => JArray (map JString parts)
            end)
    end.

(** [value === true] *)
Definition is_true (v : JsVal) : bool :=
  match v with
  | JBool true => true
  | _ => false
  end.

(** [String(raw || "").toLowerCase() === "true" || raw === true] *)
Definition expectJson_of (raw : JsVal) : Exc bool :=
  s <- js_String (js_or raw (JString "")) ;;
  Ok ((Str.toLowerCase s =? "true") || is_true raw).

(** ** JSON.parse *)

Module Json.

(** Outcome of a parsing function: a value and the unread input, a
    syntax error, or exhausted recursion fuel. *)
Inductive PR (A : Type) : Type :=
| Done (a : A) (rest : string)
| Bad
| Starved.

Arguments Done {A} a rest.
Arguments Bad {A}.
Arguments Starved {A}.

(** JSON white space: SP, TAB, LF, CR. *)
Definition is_ws (c : ascii) : bool :=
  (c =? " ")%char || (c =? "009")%char || (c =? "010")%char || (c =? "013")%char.

Fixpoint skip_ws (s : string) : string :=
  match s with
  | String c r => if is_ws c then skip_ws r else s
  | EmptyString => EmptyString
  end.

Definition is_digit (c : ascii) : bool :=
  let n := N_of_ascii c in ((48 <=? n) && (n <=? 57))%N.

Definition digit_val (c : ascii) : Z := (Z.of_N (N_of_ascii c) - 48)%Z.

Definition hex_val (c : ascii) : option N :=
  let n := N_of_ascii c in
  if ((48 <=? n) && (n <=? 57))%N then Some (n - 48)%N
  else if ((65 <=? n) && (n <=? 70))%N then Some (n - 55)%N
  else if ((97 <=? n) && (n <=? 102))%N then Some (n - 87)%N
  else None.

(** The code unit denoted by [\uXXXX].  A code unit above 255 has no
    [ascii]: it is kept modulo 256, as a stand-in that is not the
    character of the engine.  [narrow] below tells the texts without
    such an escape. *)
Definition hex4 (a b c d : ascii) : option ascii :=
  match hex_val a, hex_val b, hex_val c, hex_val d with
  | Some x, Some y, Some z, Some w =>
      Some (ascii_of_N ((x * 4096 + y * 256 + z * 16 + w) mod 256))
  | _, _, _, _ => None
  end.

Definition unescape (c : ascii) : option ascii :=
  if (c =? "034")%char then Some "034"%char
  else if (c =? "\")%char then Some "\"%char
  else if (c =? "/")%char then Some "/"%char
  else if (c =? "b")%char then Some "008"%char
  else if (c =? "f")%char then Some "012"%char
  else if (c =? "n")%char then Some "010"%char
  else if (c =? "r")%char then Some "013"%char
  else if (c =? "t")%char then Some "009"%char
  else None.

Definition cons_done (c : ascii) (p : PR string) : PR string :=
  match p with
  | Done s rest => Done (String c s) rest
  | Bad => Bad
  | Starved => Starved
  end.

(** The characters of a string literal, after its opening quote. *)
Fixpoint parse_chars (s : string) : PR string :=
  match s with
  | EmptyString => Bad
  | String c r =>
      if (c =? "034")%char then Done EmptyString r
      else if (c =? "\")%char then
        match r with
        | EmptyString => Bad
        | String e r1 =>
            if (e =? "u")%char then
              match r1 with
              | String h1 (String h2 (String h3 (String h4 r2))) =>
                  match hex4 h1 h2 h3 h4 with
                  | Some u => cons_done u (parse_chars r2)
                  | None => Bad
                  end
              | _ => Bad
              end
            else
              match unescape e with
              | Some u => cons_done u (parse_chars r1)
              | None => Bad
              end
        end
      else if (N_of_ascii c <? 32)%N then Bad
      else cons_done c (parse_chars r)
  end.

(** A run of decimal digits: accumulated value, count, unread input. *)
Fixpoint digits (acc : Z) (cnt : nat) (s : string) : Z * nat * string :=
  match s with
  | String c r =>
      if is_digit c then digits (acc * 10 + digit_val c)%Z (S cnt) r
      else (acc, cnt, s)
  | EmptyString => (acc, cnt, s)
  end.

(** Integer part: [0] or a non-empty run not starting with [0]. *)
Definition parse_int (s : string) : PR Z :=
  match s with
  | String c r =>
      if (c =? "0")%char then Done 0%Z r
      else if is_digit c then
        let '(v, _, rest) := digits 0 0 s in Done v rest
      else Bad
  | EmptyString => Bad
  end.

(** Optional fraction: value so far, number of fraction digits. *)
Definition parse_frac (v : Z) (s : string) : PR (Z * nat) :=
  match s with
  | String c r =>
      if (c =? ".")%char then
        let '(v', cnt, rest) := digits v 0 r in
        match cnt with
        | O => Bad
        | S _ => Done (v', cnt) rest
        end
      else Done (v, O) s
  | EmptyString => Done (v, O) s
  end.

(** Optional exponent. *)
Definition parse_exp (s : string) : PR Z :=
  match s with
  | String c r =>
      if (c =? "e")%char || (c =? "E")%char then
        let '(neg, r1) :=
          match r with
          | String sg r' =>
              if (sg =? "-")%char then (true, r')
              else if (sg =? "+")%char then (false, r')
              else (false, r)
          | EmptyString => (false, r)
          end in
        let '(x, cnt, rest) := digits 0 0 r1 in
        match cnt with
        | O => Bad
        | S _ => Done (if neg then (- x)%Z else x) rest
        end
      else Done 0%Z s
  | EmptyString => Done 0%Z s
  end.

(** A number literal, kept as the exact decimal it writes.  The engine
    rounds it to a double, so that [1e-400] is [0] and [1e999] is
    [Infinity]: [exact_number] below tells the decimals for which the
    two agree on sign, zero, finiteness and printing. *)
Definition parse_number (s : string) : PR JsVal :=
  let '(neg, s1) :=
    match s with
    | String c r => if (c =? "-")%char then (true, r) else (false, s)
    | EmptyString => (false, s)
    end in
  match parse_int s1 with
  | Done i s2 =>
      match parse_frac i s2 with
      | Done (v, fd) s3 =>
          match parse_exp s3 with
          | Done x s4 =>
              Done (JNum (if neg then (- v)%Z else v) (x - Z.of_nat fd)%Z) s4
          | Bad => Bad
          | Starved => Starved
          end
      | Bad => Bad
      | Starved => Starved
      end
  | Bad => Bad
  | Starved => Starved
  end.

(** Defining a property on the object under construction: a repeated
    key overwrites the earlier value. *)
Fixpoint set_prop (k : string) (v : JsVal) (props : list (string * JsVal))
  : list (string * JsVal) :=
  match props with
  | [] => [(k, v)]
  | (k', v') :: rest =>
      if k' =? k then (k', v) :: rest else (k', v') :: set_prop k v rest
  end.

Fixpoint parse_value (fuel : nat) (s : string) {struct fuel} : PR JsVal :=
  match fuel with
  | O => Starved
  | S f =>
      match skip_ws s with
      | EmptyString => Bad
      | String c r =>
          if (c =? "{")%char then
            match skip_ws r with
            | EmptyString => Bad
            | String c1 r1 =>
                if (c1 =? "}")%char then Done (JObject []) r1
                else parse_members f (String c1 r1) []
            end
          else if (c =? "[")%char then
            match skip_ws r with
            | EmptyString => Bad
            | String c1 r1 =>
                if (c1 =? "]")%char then Done (JArray []) r1
                else parse_elements f (String c1 r1) []
            end
          else if (c =? "034")%char then
            match parse_chars r with
            | Done str rest => Done (JString str) rest
            | Bad => Bad
            | Starved => Starved
            end
          else if Str.startsWith "true" (String c r) then Done (JBool true) (Str.slice 4 (String c r))
          else if Str.startsWith "false" (String c r) then Done (JBool false) (Str.slice 5 (String c r))
          else if Str.startsWith "null" (String c r) then Done JNull (Str.slice 4 (String c r))
          else if (c =? "-")%char || is_digit c then parse_number (String c r)
          else Bad
      end
  end

with parse_elements (fuel : nat) (s : string) (acc : list JsVal) {struct fuel}
  : PR JsVal :=
  match fuel with
  | O => Starved
  | S f =>
      match parse_value f s with
      | Done v rest =>
          match skip_ws rest with
          | EmptyString => Bad
          | String c r =>
              if (c =? ",")%char then parse_elements f r (acc ++ [v])%list
              else if (c =? "]")%char then Done (JArray (acc ++ [v])%list) r
              else Bad
          end
      | Bad => Bad
      | Starved => Starved
      end
  end

with parse_members (fuel : nat) (s : string) (acc : list (string * JsVal))
  {struct fuel} : PR JsVal :=
  match fuel with
  | O => Starved
  | S f =>
      match skip_ws s with
      | EmptyString => Bad
      | String q r =>
          if (q =? "034")%char then
            match parse_chars r with
            | Done k r1 =>
                match skip_ws r1 with
                | EmptyString => Bad
                | String c2 r2 =>
                    if (c2 =? ":")%char then
                      match parse_value f r2 with
                      | Done v r3 =>
                          match skip_ws r3 with
                          | EmptyString => Bad
                          | String c4 r4 =>
                              if (c4 =? ",")%char
                              then parse_members f r4 (set_prop k v acc)
                              else if (c4 =? "}")%char
                              then Done (JObject (set_prop k v acc)) r4
                              else Bad
                          end
                      | Bad => Bad
                      | Starved => Starved
                      end
                    else Bad
                end
            | Bad => Bad
            | Starved => Starved
            end
          else Bad
      end
  end.

(** One JSON value at the head of [s], with fuel that always suffices
    (see [parse_text_not_starved]). *)
Definition parse_text (s : string) : PR JsVal :=
  parse_value (2 * String.length s + 1) s.

(** [JSON.parse(s)]: [None] stands for a thrown [SyntaxError]. *)
Definition parse (s : string) : option JsVal :=
  match parse_text s with
  | Done v rest =>
      match skip_ws rest with
      | EmptyString => Some v
      | String _ _ => None
      end
  | Bad => None
  | Starved => None
  end.

(** A successful outcome leaves strictly less input, and fuel was not
    exhausted. *)
Definition shorter {A : Type} (p : PR A) (s : string) : Prop :=
  match p with
  | Done _ r => String.length r < String.length s
  | Bad => True
  | Starved => False
  end.

(** A successful outcome leaves no more input, and fuel was not
    exhausted. *)
Definition not_longer {A : Type} (p : PR A) (s : string) : Prop :=
  match p with
  | Done _ r => String.length r <= String.length s
  | Bad => True
  | Starved => False
  end.

(** *** The fragment on which the embedding is exact *)

(** No escape of the text denotes a code unit above 255: every [\u] is
    followed by [00].  Backslashes are paired from the left as the
    string lexer pairs them, so that in [\\u2028] nothing is escaped
    but the backslash. *)
Fixpoint narrow (s : string) : bool :=
  match s with
  | EmptyString => true
  | String c r =>
      if (c =? "\")%char then
        match r with
        | String e r1 =>
            if (e =? "u")%char then
              match r1 with
              | String h1 (String h2 _) =>
                  (h1 =? "0")%char && (h2 =? "0")%char && narrow r1
              | _ => narrow r1
              end
            else narrow r1
        | EmptyString => true
        end
      else narrow r
  end.

(** The decimal [m * 10^e] is a number the engine holds as written: it
    is zero, or it has at most 15 significant digits and lies between
    [10^-301] and [10^300] in magnitude.  Such a decimal does not
    overflow or underflow as a double, and the double nearest to it
    prints as the same decimal. *)
Definition exact_number (m e : Z) : bool :=
  match m with
  | Z0 => true
  | Zpos p | Zneg p =>
      let all := Num.nat_digits (Npos p) in
      let n := (Z.of_nat (String.length all) + e)%Z in
      (String.length (Num.strip_zeros all) <=? 15)%nat
      && (-300 <=? n)%Z && (n <=? 300)%Z
  end.

(** Every number inside the value is exact. *)
Fixpoint exact_value (v : JsVal) : bool :=
  match v with
  | JNum m e => exact_number m e
  | JArray elems => forallb exact_value elems
  | JObject props => forallb (fun kv => exact_value (snd kv)) props
  | _ => true
  end.

(** The text is read by [parse] as the engine reads it: it is rejected
    (by both), or none of its escapes is out of range and each number
    of the value it denotes is exact. *)
Definition exact (s : string) : bool :=
  match parse s with
  | Some v => narrow s && exact_value v
  | None => true
  end.

End Json.

(** ** Number coercion *)

Inductive Numeric : Type :=
| Finite (m e : Z)
| NotFinite.                            (* NaN, Infinity, -Infinity *)

Module ToNumber.

Fixpoint radix_digits (base : Z) (acc : Z) (s : string) : option Z :=
  match s with
  | EmptyString => Some acc
  | String c r =>
      match Json.hex_val c with
      | Some d =>
          if (Z.of_N d <? base)%Z then radix_digits base (acc * base + Z.of_N d)%Z r
          else None
      | None => None
      end
  end.

Definition radix_literal (base : Z) (s : string) : Numeric :=
  match s with
  | EmptyString => NotFinite
  | String _ _ =>
      match radix_digits base 0 s with
      | Some v => Finite v 0
      | None => NotFinite
      end
  end.

(** [StrDecimalLiteral] without its sign, kept as the exact decimal it
    writes; as for [Json.parse_number], the engine's double is that
    decimal when [Json.exact_number] holds of it, and may be zero or
    infinite otherwise. *)
Definition unsigned_decimal (neg : bool) (s : string) : Numeric :=
  if s =? "Infinity" then NotFinite
  else
    let '(v1, c1, r1) := Json.digits 0 0 s in
    let '(v2, c2, r2) :=
      match r1 with
      | String c r =>
          if (c =? ".")%char then Json.digits v1 0 r else (v1, O, r1)
      | EmptyString => (v1, O, r1)
      end in
    match (c1 + c2)%nat with
    | O => NotFinite
    | S _ =>
        match Json.parse_exp r2 with
        | Json.Done x EmptyString =>
            Finite (if neg then (- v2)%Z else v2) (x - Z.of_nat c2)%Z
        | _ => NotFinite
        end
    end.

(** [StringToNumber] *)
Definition of_string (s : string) : Numeric :=
  let t := Str.trim s in
  match t with
  | EmptyString => Finite 0 0
  | String c r =>
      if Str.startsWith "0x" (Str.toLowerCase t) then radix_literal 16 (Str.slice 2 t)
      else if Str.startsWith "0o" (Str.toLowerCase t) then radix_literal 8 (Str.slice 2 t)
      else if Str.startsWith "0b" (Str.toLowerCase t) then radix_literal 2 (Str.slice 2 t)
      else if (c =? "-")%char then unsigned_decimal true r
      else if (c =? "+")%char then unsigned_decimal false r
      else unsigned_decimal false t
  end.

End ToNumber.

(** [Number(v)]; [Finite m e] is the engine's result when
    [Json.exact_number m e] holds. *)
Definition js_Number (v : JsVal) : Exc Numeric :=
  match v with
  | JUndefined => Ok NotFinite
  | JNull => Ok (Finite 0 0)
  | JBool b => Ok (Finite (if b then 1 else 0) 0)
  | JNum m e => Ok (Finite m e)
  | JString s => Ok (ToNumber.of_string s)
  | JArray _ | JObject _ => s <- js_String v ;; Ok (ToNumber.of_string s)
  end.

(** [parseNumber(value, fallback)] *)
Definition parseNumber (value fallback : JsVal) : Exc JsVal :=
  match value with
  | JUndefined | JNull | JString EmptyString => Ok fallback
  | _ =>
      num <- js_Number value ;;
      Ok (match num with
          | Finite m e => JNum m e
          | NotFinite => fallback
          end)
  end.

(** ** Response interpreter: JSON extraction *)

Module Fence.

(** The regular expression [/```(?:json)?\s*([\s\S]*?)\s*```/i], matched
    with the backtracking priorities of the standard: each quantifier
    tries its preferred choice first and falls back when the rest of
    the pattern fails. *)

Definition ticks : string := "```".

(** [\s*] (greedy) followed by the continuation [k]. *)
Fixpoint star_space {A : Type} (s : string) (k : string -> option A) : option A :=
  match s with
  | String c r =>
      if Str.is_space c then
        match star_space r k with
        | Some x => Some x
        | None => k s
        end
      else k s
  | EmptyString => k s
  end.

(** The tail of the pattern, [\s*```], at the head of [s]. *)
Definition closes (s : string) : bool :=
  match star_space s (fun r => if Str.startsWith ticks r then Some tt else None) with
  | Some _ => true
  | None => false
  end.

(** [([\s\S]*?)] (lazy) followed by the tail: the shortest capture
    after which the tail matches. *)
Fixpoint lazy_capture (s : string) : option string :=
  if closes s then Some EmptyString
  else
    match s with
    | String c r => option_map (String c) (lazy_capture r)
    | EmptyString => None
    end.

(** [\s*([\s\S]*?)\s*```] *)
Definition after_tag (s : string) : option string := star_space s lazy_capture.

(** The whole pattern at the head of [s]; the result is group 1. *)
Definition match_here (s : string) : option string :=
  if Str.startsWith ticks s then
    let s1 := Str.slice 3 s in
    if Str.startsWith "json" (Str.toLowerCase s1) then
      match after_tag (Str.slice 4 s1) with
      | Some cap => Some cap
      | None => after_tag s1
      end
    else after_tag s1
  else None.

(** [s.match(re)]: the leftmost match; [None] is [null]. *)
Fixpoint search (s : string) : option string :=
  match match_here s with
  | Some cap => Some cap
  | None =>
      match s with
      | String _ r => search r
      | EmptyString => None
      end
  end.

End Fence.

Record JsonResult : Type := { parsed : JsVal; jsonText : JsVal }.

Definition no_json : JsonResult := {| parsed := JNull; jsonText := JNull |}.

(** Lines 90-92 of [extractJson]: the trimmed text, replaced by the
    trimmed content of the first fenced block when there is one. *)
Definition candidate_of (text : string) : string :=
  let candidate := Str.trim text in
  match Fence.search candidate with
  | Some inner => Str.trim inner
  | None => candidate
  end.

(** The test of line 94. *)
Definition bracketed (candidate : string) : bool :=
  (Str.startsWith "{" candidate && Str.endsWith "}" candidate) ||
  (Str.startsWith "[" candidate && Str.endsWith "]" candidate).

(** [extractJson(text)] *)
Definition extractJson (text : string) : JsonResult :=
  if negb (Str.nonempty text) then no_json
  else
    let candidate := candidate_of text in
    if negb (Str.nonempty candidate) then no_json
    else if negb (bracketed candidate) then no_json
    else
      match Json.parse candidate with
      | Some v => {| parsed := v; jsonText := JString candidate |}
      | None => {| parsed := JNull; jsonText := JString candidate |}
      end.

Definition LF : string := String "010" EmptyString.

(** ** Provider tables *)

Inductive Factory : Type :=
| createAnthropic | createCohere | createDeepSeek | createGoogleGenerativeAI
| createGroq | createMistral | createOpenAI | createOpenAICompatible | createXai.

Definition PROVIDERS : list (string * Factory) :=
  [ ("anthropic", createAnthropic);
    ("cohere", createCohere);
    ("deepseek", createDeepSeek);
    ("google", createGoogleGenerativeAI);
    ("groq", createGroq);
    ("mistral", createMistral);
    ("openai", createOpenAI);
    ("local", createOpenAICompatible);
    ("xai", createXai) ].

Definition PROVIDER_ENV : list (string * string) :=
  [ ("anthropic", "ANTHROPIC_API_KEY");
    ("cohere", "COHERE_API_KEY");
    ("deepseek", "DEEPSEEK_API_KEY");
    ("google", "GOOGLE_API_KEY");
    ("groq", "GROQ_API_KEY");
    ("mistral", "MISTRAL_API_KEY");
    ("openai", "OPENAI_API_KEY");
    ("local", "LOCAL_API_KEY");
    ("xai", "XAI_API_KEY") ].

(** [new Set()] *)
Definition OPTIONAL_KEY_PROVIDERS : list string := [].

(** What [table[name]] finds on an object literal: an own entry, a
    member inherited from [Object.prototype], or nothing. *)
Inductive Member (A : Type) : Type :=
| Own (a : A)
| InheritedConstructor                  (* the function [Object] *)
| InheritedProto                        (* the object [Object.prototype] *)
| Missing.

Arguments Own {A} a.
Arguments InheritedConstructor {A}.
Arguments InheritedProto {A}.
Arguments Missing {A}.

Fixpoint own_entry {A : Type} (name : string) (table : list (string * A)) : option A :=
  match table with
  | [] => None
  | (k, a) :: rest => if k =? name then Some a else own_entry name rest
  end.

(** [table[name]] for a lower-case [name], as [main] passes it: the only
    members of [Object.prototype] with a lower-case name are
    [constructor] and [__proto__]. *)
Definition member {A : Type} (table : list (string * A)) (name : string) : Member A :=
  match own_entry name table with
  | Some a => Own a
  | None =>
      if name =? "constructor" then InheritedConstructor
      else if name =? "__proto__" then InheritedProto
      else Missing
  end.

(** ** The world of one invocation *)

(** The options a factory is called with, the model name given to the
    resulting provider, and the arguments of [generateText]. *)
Record Request : Type := {
  rq_factory : Factory;
  rq_apiKey : option string;            (* [opts.apiKey], when set *)
  rq_baseURL : option string;           (* [opts.baseURL], when set *)
  rq_chatModel : bool;                  (* handle from [instance.chatModel] *)
  rq_model : string;
  rq_prompt : JsVal;
  rq_system : JsVal;
  rq_temperature : JsVal;
  rq_maxTokens : JsVal;
  rq_topP : JsVal;
  rq_stopSequences : JsVal;
  rq_timeoutMs : JsVal
}.

Record World : Type := {
  stdin : string;
  (** [process.env] *)
  env : string -> option string;
  (** [generateText], settled: a result, or a rejection (which includes
      the abort raised by the timer).  The factories of the SDK and the
      providers they return build their handles without throwing. *)
  generateText : Request -> Exc JsVal;
  (** the message of the [SyntaxError] that [JSON.parse] throws *)
  syntax_error : string -> string
}.

(** ** The process *)

(** Each entry of [stdout] is one written line,
    [JSON.stringify(payload) + "\n"], recorded as its payload.  Writes
    to standard output complete synchronously, as they do for files,
    pipes and terminals on POSIX systems.  [exit_scheduled] holds once a
    write has registered its callback [() => process.exit(0)].  The
    stream defers the callback to the next tick, which comes after the
    chain of synchronous code and promise reactions that issued the
    write has run to its end; until then the caller of [writeExit] goes
    on. *)
Record Proc : Type := {
  stdout : list JsVal;
  requests : list Request;
  exit_scheduled : bool
}.

Definition M (A : Type) : Type := Proc -> Exc A * Proc.

Definition ret {A : Type} (a : A) : M A := fun p => (Ok a, p).

Definition lift {A : Type} (e : Exc A) : M A := fun p => (e, p).

Definition mbind {A B : Type} (x : M A) (k : A -> M B) : M B :=
  fun p =>
    match x p with
    | (Ok a, p') => k a p'
    | (Throw msg, p') => (Throw msg, p')
    end.

Notation "'let*' x ':=' e1 'in' e2" := (mbind e1 (fun x => e2))
  (at level 10, x name, e1 at level 100, e2 at level 200).

(** [writeExit(payload)]: the function has no [return]; its value is
    [undefined]. *)
Definition writeExit (payload : JsVal) : M JsVal :=
  fun p =>
    (Ok JUndefined,
     {| stdout := (stdout p ++ [payload])%list;
        requests := requests p;
        exit_scheduled := true |}).

Definition failure (code description : string) : JsVal :=
  JObject [("xy", JNum 1 0); ("code", JString code);
           ("description", JString description)].

Definition success (data : JsVal) : JsVal :=
  JObject [("xy", JNum 1 0); ("code", JNum 0 0); ("data", data)].

(** [fail(code, description)] *)
Definition fail (code description : string) : M JsVal :=
  writeExit (failure code description).

(** [await generateText({...})] *)
Definition await_generateText (w : World) (rq : Request) : M JsVal :=
  fun p =>
    (generateText w rq,
     {| stdout := stdout p;
        requests := (requests p ++ [rq])%list;
        exit_scheduled := exit_scheduled p |}).

(** [readJob()] *)
Definition readJob (w : World) : M JsVal :=
  let raw := Str.trim (stdin w) in
  if negb (Str.nonempty raw) then fail "input" "No JSON input received on STDIN."
  else
    match Json.parse raw with
    | Some job => ret job
    | None => fail "input" ("Failed to parse JSON input: " ++ syntax_error w raw)
    end.

Record ModelInfo : Type := { provider : string; model : string }.

(** [normalizeModel(value)]; [None] is [null]. *)
Definition normalizeModel (value : JsVal) : Exc (option ModelInfo) :=
  s <- js_String (js_or value (JString "")) ;;
  let raw := Str.trim s in
  if negb (Str.nonempty raw) then Ok None
  else
    match Str.split_slash raw with
    | first :: (_ :: _) as rest =>
        Ok (Some {| provider := Str.toLowerCase first;
                    model := Str.join "/" rest |})
    | _ => Ok None
    end.

(** [value || otherwise] for an environment entry, which is a string
    or [undefined] *)
Definition or_else (value : option string) (otherwise : string) : string :=
  match value with
  | Some v => if Str.nonempty v then v else otherwise
  | None => otherwise
  end.

(** The property key [PROVIDER_ENV[provider]] turns into, and the text
    it interpolates to. *)
Definition env_name_text (m : Member string) : string :=
  match m with
  | Own name => name
  | InheritedConstructor => "function Object() { [native code] }"
  | InheritedProto => "[object Object]"
  | Missing => "undefined"
  end.

(** [resolveApiKey(provider)] *)
Definition resolveApiKey (w : World) (provider : string) : string :=
  or_else (env w (env_name_text (member PROVIDER_ENV provider)))
          (or_else (env w "AI_API_KEY") EmptyString).

(** The value [buildProvider] returns when it does not return [null]. *)
Inductive ProviderValue : Type :=
| ProviderFn (factory : Factory) (apiKey baseURL : option string) (chat : bool)
| OptsObject.                           (* [Object(opts)]: not a function *)

Definition opt_of (v : string) : option string :=
  if Str.nonempty v then Some v else None.

(** [buildProvider(provider, apiKey, baseURL)] *)
Definition buildProvider (provider : string) (apiKey baseURL : string)
  : Exc (option ProviderValue) :=
  match member PROVIDERS provider with
  | Missing => Ok None
  | Own factory =>
      Ok (Some (ProviderFn factory (opt_of apiKey) (opt_of baseURL)
                           (provider =? "local")))
  | InheritedConstructor => Ok (Some OptsObject)
  | InheritedProto => Throw "factory is not a function"
  end.

(** [Object.keys(PROVIDERS).sort().join(", ")] *)
Fixpoint insert_sorted (x : string) (l : list string) : list string :=
  match l with
  | [] => [x]
  | y :: rest => if String.leb x y then x :: l else y :: insert_sorted x rest
  end.

Definition sort_strings (l : list string) : list string :=
  fold_right insert_sorted [] l.

Definition supported_providers : string :=
  Str.join ", " (sort_strings (map fst PROVIDERS)).

(** [prompt.trim()] on the value of [params.prompt || ""] *)
Definition call_trim (v : JsVal) : Exc string :=
  match v with
  | JString s => Ok (Str.trim s)
  | _ => Throw "prompt.trim is not a function"
  end.

(** Lines 154-166: provider and model name; [None] is the early return
    of line 162. *)
Definition selectProvider (baseURL modelRaw : string) : Exc (option ModelInfo) :=
  if Str.nonempty baseURL then
    Ok (Some {| provider := "local";
                model := if Str.startsWith "local/" (Str.toLowerCase modelRaw)
                         then Str.slice 6 modelRaw else modelRaw |})
  else normalizeModel (JString modelRaw).

(** Lines 216-227: the envelope for a response text. *)
Definition respond (expectJson : bool) (text : string) : JsVal :=
  let jsonResult := extractJson text in
  if expectJson && negb (truthy (parsed jsonResult)) then
    failure "json" (if truthy (jsonText jsonResult)
                    then "Invalid JSON returned by model."
                    else "No JSON returned by model.")
  else
    success (if truthy (parsed jsonResult) then parsed jsonResult
             else JObject [("text", JString text)]).

(** [result && typeof result.text === "string" ? result.text : ""] *)
Definition text_of (result : JsVal) : string :=
  if truthy result then
    match js_get result "text" with
    | Ok (JString s) => s
    | _ => EmptyString
    end
  else EmptyString.

(** Lines 185-227, the request executor and the response interpreter:
    the provider is a function, the remaining parameters are coerced,
    one request is issued and its result is written. *)
Definition execute (w : World) (params prompt : JsVal) (factory : Factory)
    (key url : option string) (chat : bool) (modelName : string) : M JsVal :=
  let* temperature_raw := lift (js_get params "temperature") in
  let* temperature := lift (parseNumber temperature_raw JUndefined) in
  let* max_tokens_raw := lift (js_get params "max_tokens") in
  let* maxTokens := lift (parseNumber max_tokens_raw JUndefined) in
  let* top_p_raw := lift (js_get params "top_p") in
  let* topP := lift (parseNumber top_p_raw JUndefined) in
  let* stop_raw := lift (js_get params "stop_sequences") in
  let* stopSequences := lift (parseStopSequences stop_raw) in
  let* system_raw := lift (js_get params "system_prompt") in
  let* system := lift (if truthy system_raw
                       then (s <- js_String system_raw ;; Ok (JString s))
                       else Ok JUndefined) in
  let* expect_raw := lift (js_get params "expect_json") in
  let* expectJson := lift (expectJson_of expect_raw) in
  let* timeout_raw := lift (js_get params "timeout_ms") in
  let* timeoutMs := lift (parseNumber timeout_raw (JNum 60000 0)) in
  let* result := await_generateText w
      {| rq_factory := factory; rq_apiKey := key; rq_baseURL := url;
         rq_chatModel := chat; rq_model := modelName; rq_prompt := prompt;
         rq_system := system; rq_temperature := temperature;
         rq_maxTokens := maxTokens; rq_topP := topP;
         rq_stopSequences := stopSequences; rq_timeoutMs := timeoutMs |} in
  writeExit (respond expectJson (text_of result)).

(** [PROVIDER_ENV[providerName] || "AI_API_KEY"], interpolated *)
Definition envName_of (providerName : string) : string :=
  match member PROVIDER_ENV providerName with
  | Missing => "AI_API_KEY"
  | m => env_name_text m
  end.

(** Lines 168-185, the credential and provider resolver. *)
Definition resolve (w : World) (params prompt : JsVal)
    (baseURL providerName modelName : string) : M JsVal :=
  let apiKey := resolveApiKey w providerName in
  if (providerName =? "local") && negb (Str.nonempty baseURL)
  then fail "params" "Parameter 'base_url' is required for provider 'local'."
  else
  if negb (Str.nonempty apiKey) && negb (Str.nonempty baseURL)
     && negb (existsb (String.eqb providerName) OPTIONAL_KEY_PROVIDERS)
  then fail "env" ("Missing API key. Set " ++ envName_of providerName
                   ++ " or AI_API_KEY.")
  else
  let* built := lift (buildProvider providerName apiKey baseURL) in
  match built with
  | None =>
      fail "params" ("Unsupported provider '" ++ providerName
                     ++ "'. Supported providers: " ++ supported_providers ++ ".")
  | Some OptsObject => lift (Throw "provider is not a function")
  | Some (ProviderFn factory key url chat) =>
      execute w params prompt factory key url chat modelName
  end.

(** Line 147: [params.base_url ? String(params.base_url).trim() : ""] *)
Definition baseURL_of (params : JsVal) : Exc string :=
  base_url <- js_get params "base_url" ;;
  if truthy base_url then (s <- js_String base_url ;; Ok (Str.trim s))
  else Ok EmptyString.

(** Line 148: [String(params.model || "").trim()] *)
Definition modelRaw_of (params : JsVal) : Exc string :=
  params_model <- js_get params "model" ;;
  s <- js_String (js_or params_model (JString "")) ;;
  Ok (Str.trim s).

(** Lines 144-166, the parameter normalizer. *)
Definition normalize (w : World) (params : JsVal) : M JsVal :=
  let* params_prompt := lift (js_get params "prompt") in
  let prompt := js_or params_prompt (JString "") in
  let* trimmed := lift (call_trim prompt) in
  if negb (Str.nonempty trimmed)
  then fail "params" "Required parameter 'prompt' was not provided."
  else
  let* baseURL := lift (baseURL_of params) in
  let* modelRaw := lift (modelRaw_of params) in
  if negb (Str.nonempty modelRaw)
  then fail "params" "Required parameter 'model' was not provided."
  else
  let* selected := lift (selectProvider baseURL modelRaw) in
  match selected with
  | None => fail "params" "Parameter 'model' must be in the form 'provider/model'."
  | Some info => resolve w params prompt baseURL (provider info) (model info)
  end.

(** The body of the main [async] function. *)
Definition main (w : World) : M JsVal :=
  let* job := readJob w in
  let* job_params := lift (js_get job "params") in
  normalize w (js_or job_params (JObject [])).

(** The top-level [.catch]: [err && err.message ? err.message : "Unknown error"] *)
Definition catch_all (msg : string) : M JsVal :=
  fail "error" (if Str.nonempty msg then msg else "Unknown error").

Inductive Status : Type :=
| Exited (code : Z)                     (* [process.exit(code)] was called *)
| Drained.                              (* the event loop ran dry *)

Record Outcome : Type := {
  lines : list JsVal;
  issued : list Request;
  status : Status
}.

Definition start : Proc :=
  {| stdout := []; requests := []; exit_scheduled := false |}.

(** What the process has done once the main function has settled: the
    catch-all runs on a rejection, then the callbacks of the writes. *)
Definition settle (end_of_main : Exc JsVal * Proc) : Outcome :=
  let p :=
    match end_of_main with
    | (Ok _, p) => p
    | (Throw msg, p) => snd (catch_all msg p)
    end in
  {| lines := stdout p;
     issued := requests p;
     status := if exit_scheduled p then Exited 0 else Drained |}.

(** One invocation. *)
Definition run (w : World) : Outcome := settle (main w start).

(** *** Runs inside the exact fragment *)

(** The job text is read as the engine reads it. *)
Definition exact_input (w : World) : bool :=
  Json.exact (Str.trim (stdin w)).

(** The numbers a request carries are exact: [parseNumber] gave each
    the value the engine gives. *)
Definition exact_request (rq : Request) : bool :=
  Json.exact_value (rq_temperature rq) && Json.exact_value (rq_maxTokens rq)
  && Json.exact_value (rq_topP rq) && Json.exact_value (rq_timeoutMs rq).

(** The run stays inside the fragment up to its request. *)
Definition exact_run (w : World) : bool :=
  exact_input w && forallb exact_request (issued (run w)).

(** The response text is interpreted as the engine interprets it: its
    candidate is not handed to the parser, or is read exactly. *)
Definition exact_answer (text : string) : bool :=
  negb (bracketed (candidate_of text)) || Json.exact (candidate_of text).

(** [job.params || {}] for the job on standard input, when the input
    parses and reading [params] from the job does not throw. *)
Definition params_of (w : World) : option JsVal :=
  match Json.parse (Str.trim (stdin w)) with
  | Some job =>
      match js_get job "params" with
      | Ok job_params => Some (js_or job_params (JObject []))
      | Throw _ => None
      end
  | None => None
  end.

(** ** Shapes of envelopes and of stage outcomes *)

Definition is_envelope (line : JsVal) : Prop :=
  (exists code description, line = failure code description) \/
  (exists data, line = success data).

(** The ways a stage of the main function that starts in [p] and works
    on [params] can end: it throws before any effect; it writes a
    failure and returns; it issues the request, which rejects; it issues
    the request and writes the envelope of the response, under the flag
    that [params.expect_json] stands for. *)
Inductive stage_end (w : World) (params : JsVal) (p : Proc)
  : Exc JsVal * Proc -> Prop :=
| end_thrown (msg : string) :
    stage_end w params p (Throw msg, p)
| end_failed (code description : string) :
    stage_end w params p (fail code description p)
| end_rejected (rq : Request) (msg : string) :
    generateText w rq = Throw msg ->
    stage_end w params p
      (Throw msg,
       {| stdout := stdout p;
          requests := (requests p ++ [rq])%list;
          exit_scheduled := exit_scheduled p |})
| end_answered (rq : Request) (result raw : JsVal) (flag : bool) :
    generateText w rq = Ok result ->
    js_get params "expect_json" = Ok raw ->
    expectJson_of raw = Ok flag ->
    stage_end w params p
      (Ok JUndefined,
       {| stdout := (stdout p ++ [respond flag (text_of result)])%list;
          requests := (requests p ++ [rq])%list;
          exit_scheduled := true |}).

(** ** Sample worlds *)

(** Sample texts are written with an apostrophe for each double quote. *)
Fixpoint quoted (s : string) : string :=
  match s with
  | EmptyString => EmptyString
  | String c r => String (if (c =? "'")%char then "034"%char else c) (quoted r)
  end.

(** A world from its input, its environment and the text the model
    answers with. *)
Definition world_of (input : string) (environment : list (string * string))
    (answer : string) : World :=
  {| stdin := input;
     env := fun name => own_entry name environment;
     generateText := fun _ => Ok (JObject [("text", JString answer)]);
     syntax_error := fun _ => "Unexpected token" |}.

Definition stop_world : World :=
  world_of (quoted "{'params':{'prompt':'hi','model':'openai/gpt','stop_sequences':[]}}")
           [("OPENAI_API_KEY", "k")] "ok".

Definition plain_job : string :=
  (quoted "{'params':{'prompt':'hi','model':'openai/gpt'}}").

Definition fenced_answer : string :=
  "```json" ++ LF ++ (quoted "{'a':1}") ++ LF ++ "```".

(** The request that [plain_job] leads to with the key [k]. *)
Definition plain_request : Request :=
  {| rq_factory := createOpenAI; rq_apiKey := Some "k";
     rq_baseURL := None; rq_chatModel := false; rq_model := "gpt";
     rq_prompt := JString "hi"; rq_system := JUndefined;
     rq_temperature := JUndefined; rq_maxTokens := JUndefined;
     rq_topP := JUndefined; rq_stopSequences := JUndefined;
     rq_timeoutMs := JNum 60000 0 |}.

(** The model answers with a fenced JSON block. *)
Definition fenced_world : World :=
  world_of plain_job [("OPENAI_API_KEY", "k")] fenced_answer.

Definition expect_job : string :=
  (quoted "{'params':{'prompt':'hi','model':'openai/gpt','expect_json':true}}").

(** Nothing on standard input. *)
Definition empty_input_world : World :=
  world_of "" [("OPENAI_API_KEY", "k")] "ok".

(** Standard input is not JSON. *)
Definition bad_input_world : World :=
  world_of "not json" [("OPENAI_API_KEY", "k")] "ok".

(** A provider name that is a member of [Object.prototype], with the
    generic key set. *)
Definition inherited_world : World :=
  world_of (quoted "{'params':{'prompt':'hi','model':'constructor/x'}}")
           [("AI_API_KEY", "k")] "ok".

Definition inherited_proto_world : World :=
  world_of (quoted "{'params':{'prompt':'hi','model':'__proto__/x'}}")
           [("AI_API_KEY", "k")] "ok".

(** A base URL and a model with the [local/] prefix, in capitals and
    twice. *)
Definition local_world : World :=
  world_of (quoted "{'params':{'prompt':'hi','model':'local/foo','base_url':'http://localhost:11434/v1'}}")
           [] "ok".

(** The request that [local_world] issues. *)
Definition local_request : Request :=
  {| rq_factory := createOpenAICompatible; rq_apiKey := None;
     rq_baseURL := Some "http://localhost:11434/v1"; rq_chatModel := true;
     rq_model := "foo"; rq_prompt := JString "hi"; rq_system := JUndefined;
     rq_temperature := JUndefined; rq_maxTokens := JUndefined;
     rq_topP := JUndefined; rq_stopSequences := JUndefined;
     rq_timeoutMs := JNum 60000 0 |}.

Definition local_twice_world : World :=
  world_of (quoted "{'params':{'prompt':'hi','model':'LOCAL/local/foo','base_url':'http://localhost:11434/v1'}}")
           [] "ok".

(** A numeric prompt. *)
Definition numeric_prompt_world : World :=
  world_of (quoted "{'params':{'prompt':5,'model':'openai/gpt'}}")
           [("OPENAI_API_KEY", "k")] "ok".

(** A model identifier without a slash. *)
Definition no_slash_world : World :=
  world_of (quoted "{'params':{'prompt':'hi','model':'gpt-5.1'}}")
           [("OPENAI_API_KEY", "k")] "ok".

(** Both the provider key and the generic key are set. *)
Definition both_keys_world : World :=
  world_of plain_job [("AI_API_KEY", "generic"); ("OPENAI_API_KEY", "specific")] "ok".

(** ** JSON.stringify *)

Module Stringify.

(** One hexadecimal digit, in lower case. *)
Definition hex_digit (n : N) : ascii :=
  if (n <? 10)%N then ascii_of_N (48 + n) else ascii_of_N (87 + n).

(** [QuoteJSONString] on one code unit below 256: the two-character
    escapes, [\u00XX] for the other control characters, and the code
    unit itself otherwise. *)
Definition quote_char (c : ascii) : string :=
  if (c =? "034")%char then String "\" (String "034" "")
  else if (c =? "\")%char then "\\"
  else if (c =? "008")%char then "\b"
  else if (c =? "009")%char then "\t"
  else if (c =? "010")%char then "\n"
  else if (c =? "012")%char then "\f"
  else if (c =? "013")%char then "\r"
  else if (N_of_ascii c <? 32)%N then
    "\u00" ++ String (hex_digit (N_of_ascii c / 16))
                     (String (hex_digit (N_of_ascii c mod 16)) "")
  else String c "".

Fixpoint quote_chars (s : string) : string :=
  match s with
  | EmptyString => EmptyString
  | String c r => quote_char c ++ quote_chars r
  end.

Definition quote (s : string) : string :=
  String "034" (quote_chars s ++ String "034" "").

(** The array index a property key denotes: a canonical decimal numeral
    of at most [2^32 - 2]. *)
Definition array_index (key : string) : option N :=
  match key with
  | EmptyString => None
  | String c r =>
      if Str.all_chars Json.is_digit key
         && (negb (c =? "0")%char || negb (Str.nonempty r))
      then
        let n := Z.to_N (fst (fst (Json.digits 0 0 key))) in
        if (n <=? 4294967294)%N then Some n else None
      else None
  end.

(** Insertion by ascending index. *)
Fixpoint insert_index {A : Type} (n : N) (a : A) (l : list (N * A)) : list (N * A) :=
  match l with
  | [] => [(n, a)]
  | (m, b) :: rest =>
      if (n <=? m)%N then (n, a) :: l else (m, b) :: insert_index n a rest
  end.

Fixpoint indexed {A : Type} (entries : list (string * A)) : list (N * (string * A)) :=
  match entries with
  | [] => []
  | (k, a) :: rest =>
      match array_index k with
      | Some n => insert_index n (k, a) (indexed rest)
      | None => indexed rest
      end
  end.

Definition named {A : Type} (entries : list (string * A)) : list (string * A) :=
  filter (fun kv => match array_index (fst kv) with Some _ => false | None => true end)
         entries.

(** [OrdinaryOwnPropertyKeys]: the array indices in ascending order,
    then the other keys in the order of their creation. *)
Definition own_keys_order {A : Type} (entries : list (string * A)) : list (string * A) :=
  (map snd (indexed entries) ++ named entries)%list.

(** The members of an object: a property whose value serializes to
    [undefined] is left out. *)
Fixpoint members (entries : list (string * option string)) : list string :=
  match entries with
  | [] => []
  | (k, Some s) :: rest => (quote k ++ ":" ++ s) :: members rest
  | (_, None) :: rest => members rest
  end.

(** [SerializeJSONProperty] without a replacer or an indentation;
    [None] is [undefined].  An [undefined] element of an array is
    written [null]. *)
Fixpoint serialize (v : JsVal) : option string :=
  match v with
  | JUndefined => None
  | JNull => Some "null"
  | JBool true => Some "true"
  | JBool false => Some "false"
  | JNum m e => Some (Num.to_string m e)
  | JString s => Some (quote s)
  | JArray elems =>
      Some ("[" ++ Str.join ","
                     (map (fun x => match serialize x with
                                    | Some s => s
                                    | None => "null"
                                    end) elems) ++ "]")
  | JObject props =>
      let serialized :=
        (fix each (l : list (string * JsVal)) : list (string * option string) :=
           match l with
           | [] => []
           | (k, x) :: rest => (k, serialize x) :: each rest
           end) props in
      Some ("{" ++ Str.join "," (members (own_keys_order serialized)) ++ "}")
  end.

End Stringify.

(** The text [writeExit] hands to the stream (its line 47): the
    serialized payload and a line feed. *)
Definition written_line (payload : JsVal) : string :=
  match Stringify.serialize payload with
  | Some s => s ++ LF
  | None => "undefined" ++ LF
  end.

(** ** Predicates of the further properties *)

(** Not a line feed. *)
Definition not_lf (c : ascii) : bool := negb (c =? "010")%char.

(** An object or an array. *)
Definition container (v : JsVal) : Prop :=
  (exists props, v = JObject props) \/ (exists elems, v = JArray elems).

(** The first test of [parseNumber]:
    [value === undefined || value === null || value === ""]. *)
Definition absent (value : JsVal) : Prop :=
  value = JUndefined \/ value = JNull \/ value = JString "".

(** Neither a line feed nor a comma: what [split_stop] never leaves in
    a piece. *)
Definition not_separator (c : ascii) : bool :=
  negb ((c =? "010")%char || (c =? ",")%char).

(** A stop sequence that the string branch keeps as it is: not empty,
    trimmed, free of separators. *)
Definition clean_part (s : string) : Prop :=
  s <> "" /\ Str.trim s = s /\ Str.all_chars not_separator s = true.

(** A separator of a written list: a comma or a line feed, then any
    blanks other than line feeds. *)
Definition list_separator (sep : string) : Prop :=
  exists c pad,
    sep = String c pad /\ not_separator c = false /\
    Str.all_chars (fun x => Str.is_space x && not_separator x) pad = true.

(** The input on which a run of digits ends. *)
Definition stops (rest : string) : Prop :=
  match rest with
  | String c _ => Json.is_digit c = false
  | EmptyString => True
  end.

(** The code units of a decimal numeral without sign or exponent. *)
Definition plain_char (c : ascii) : bool := Json.is_digit c || (c =? ".")%char.

(** ** More sample worlds *)

(** The request is rejected, as it is when the timer aborts it. *)
Definition rejecting_world : World :=
  {| stdin := plain_job;
     env := fun name => own_entry name [("OPENAI_API_KEY", "k")];
     generateText := fun _ => Throw "AI request timed out";
     syntax_error := fun _ => "Unexpected token" |}.

(** The response carries no text. *)
Definition textless_world : World :=
  {| stdin := expect_job;
     env := fun name => own_entry name [("OPENAI_API_KEY", "k")];
     generateText := fun _ => Ok (JObject [("finishReason", JString "length")]);
     syntax_error := fun _ => "Unexpected token" |}.

(** No key in the environment. *)
Definition no_key_world : World := world_of plain_job [] "ok".

(** A provider that the table does not list. *)
Definition unknown_provider_world : World :=
  world_of (quoted "{'params':{'prompt':'hi','model':'Acme/x1'}}")
           [("AI_API_KEY", "k")] "ok".

(** The provider [local] without a base URL. *)
Definition local_no_url_world : World :=
  world_of (quoted "{'params':{'prompt':'hi','model':'Local/llama3'}}")
           [("LOCAL_API_KEY", "k"); ("AI_API_KEY", "k")] "ok".

(** A base URL, with the generic key and the key of another provider. *)
Definition keyed_local_world : World :=
  world_of (quoted "{'params':{'prompt':'hi','model':'llama3','base_url':'http://localhost:11434/v1'}}")
           [("OPENAI_API_KEY", "o"); ("AI_API_KEY", "g")] "ok".

(** The request that [keyed_local_world] issues. *)
Definition keyed_local_request : Request :=
  {| rq_factory := createOpenAICompatible; rq_apiKey := Some "g";
     rq_baseURL := Some "http://localhost:11434/v1"; rq_chatModel := true;
     rq_model := "llama3"; rq_prompt := JString "hi"; rq_system := JUndefined;
     rq_temperature := JUndefined; rq_maxTokens := JUndefined;
     rq_topP := JUndefined; rq_stopSequences := JUndefined;
     rq_timeoutMs := JNum 60000 0 |}.

(** The job is the JSON value [null]. *)
Definition null_job_world : World := world_of " null " [("OPENAI_API_KEY", "k")] "ok".

(** The parameters of the job are an array. *)
Definition bare_job_world : World :=
  world_of (quoted "{'params':['hi']}") [("OPENAI_API_KEY", "k")] "ok".

(** * Properties *)

(** ** Sample evaluations *)

Example ex_stop1 :
  parseStopSequences (JString ("a, b" ++ String "010" "c"))
  = Ok (JArray [JString "a"; JString "b"; JString "c"]).
Proof. reflexivity. Qed.

Example ex_num1 : Num.to_string 15 (-1) = "1.5". Proof. reflexivity. Qed.

Example ex_num2 : Num.to_string 1 21 = "1e+21". Proof. reflexivity. Qed.

Example ex_num3 : Num.to_string 120 0 = "120". Proof. reflexivity. Qed.

Example ex_num4 : Num.to_string (-5) (-7) = "-5e-7". Proof. reflexivity. Qed.

Example ex_num5 : Num.to_string 123 (-5) = "0.00123". Proof. reflexivity. Qed.

Example ex_num6 : Num.to_string 1234 20 = "1.234e+23". Proof. reflexivity. Qed.

Example ex_json1 :
  Json.parse (quoted "{'a':1}") = Some (JObject [("a", JNum 1 0)]).
Proof. reflexivity. Qed.

Example ex_json2 :
  Json.parse (quoted " [1.5e2, 'x\nA', true, null, {'k': [], 'k': -0}] ")
  = Some (JArray [JNum 15 1; JString (String "x" (String "010" "A")); JBool true;
                  JNull; JObject [("k", JNum 0 0)]]).
Proof. reflexivity. Qed.

Example ex_json3 : Json.parse "[1,]" = None. Proof. reflexivity. Qed.

Example ex_json4 : Json.parse (quoted "{'a':01}") = None. Proof. reflexivity. Qed.

Example ex_json5 : Json.parse "{a:1}" = None. Proof. reflexivity. Qed.

Example ex_json6 : Json.parse "" = None. Proof. reflexivity. Qed.

Example ex_extract1 :
  extractJson ("```json" ++ LF ++ (quoted "{'a':1}") ++ LF ++ "```")
  = {| parsed := JObject [("a", JNum 1 0)]; jsonText := JString (quoted "{'a':1}") |}.
Proof. reflexivity. Qed.

Example ex_extract2 :
  extractJson ("Here you go: ```JSON  [1, 2]  ``` and ```{}```")
  = {| parsed := JArray [JNum 1 0; JNum 2 0]; jsonText := JString "[1, 2]" |}.
Proof. reflexivity. Qed.

Example ex_extract3 : extractJson "just text" = no_json.
Proof. reflexivity. Qed.

Example ex_extract4 :
  extractJson "{oops}" = {| parsed := JNull; jsonText := JString "{oops}" |}.
Proof. reflexivity. Qed.

(** ** Facts about strings *)

Module StrFacts.

Lemma append_nil_r (s : string) : s ++ "" = s.
Proof. induction s as [|c r IH]; simpl; [reflexivity | now rewrite IH]. Qed.

Lemma append_assoc (a b c : string) : (a ++ b) ++ c = a ++ (b ++ c).
Proof. induction a as [|x r IH]; simpl; [reflexivity | now rewrite IH]. Qed.

Lemma length_append (a b : string) :
  String.length (a ++ b) = String.length a + String.length b.
Proof. induction a as [|x r IH]; simpl; [reflexivity | now rewrite IH]. Qed.

Lemma startsWith_cons (c d : ascii) (p s : string) :
  Str.startsWith (String c p) (String d s) = (c =? d)%char && Str.startsWith p s.
Proof.
  unfold Str.startsWith. simpl. destruct (ascii_dec c d) as [->|Hne].
  - now rewrite Ascii.eqb_refl.
  - apply Ascii.eqb_neq in Hne. now rewrite Hne.
Qed.

Lemma startsWith_nil (s : string) : Str.startsWith "" s = true.
Proof. now destruct s. Qed.

Lemma startsWith_append (p s : string) : Str.startsWith p (p ++ s) = true.
Proof.
  induction p as [|c r IH]; [apply startsWith_nil|].
  change (String c r ++ s) with (String c (r ++ s)).
  now rewrite startsWith_cons, Ascii.eqb_refl.
Qed.

(** A pattern no longer than [a] only looks at [a]. *)
Lemma startsWith_append_long (p a b : string) :
  String.length p <= String.length a ->
  Str.startsWith p (a ++ b) = Str.startsWith p a.
Proof.
  revert a. induction p as [|c r IH]; intros a Hlen.
  - now rewrite !startsWith_nil.
  - destruct a as [|d a']; simpl in Hlen; [lia|].
    change (String d a' ++ b) with (String d (a' ++ b)).
    rewrite !startsWith_cons. f_equal. apply IH. lia.
Qed.

Lemma toLowerCase_append (a b : string) :
  Str.toLowerCase (a ++ b) = Str.toLowerCase a ++ Str.toLowerCase b.
Proof. induction a as [|c r IH]; simpl; [reflexivity | now rewrite IH]. Qed.

Lemma toLowerCase_length (s : string) :
  String.length (Str.toLowerCase s) = String.length s.
Proof. induction s as [|c r IH]; simpl; [reflexivity | now rewrite IH]. Qed.

Lemma slice_append (a b : string) : Str.slice (String.length a) (a ++ b) = b.
Proof. induction a as [|c r IH]; simpl; [now destruct b | exact IH]. Qed.

Lemma nonempty_false (s : string) : Str.nonempty s = false <-> s = "".
Proof. destruct s; simpl; split; congruence. Qed.

Lemma nonempty_true (s : string) : Str.nonempty s = true <-> s <> "".
Proof. destruct s; simpl; split; congruence. Qed.

(** The code units that lower-case to a given ASCII letter. *)
Lemma lower_char_t (c : ascii) :
  Str.lower_char c = "t"%char -> c = "t"%char \/ c = "T"%char.
Proof.
  destruct c as [[] [] [] [] [] [] [] []]; vm_compute; intros H;
    first [discriminate H | now left | now right].
Qed.

Lemma all_chars_append (P : ascii -> bool) (a b : string) :
  Str.all_chars P (a ++ b) = Str.all_chars P a && Str.all_chars P b.
Proof.
  induction a as [|c r IH]; simpl; [reflexivity|].
  now rewrite IH, andb_assoc.
Qed.

Lemma all_chars_substring (P : ascii -> bool) (s : string) (n m : nat) :
  Str.all_chars P s = true -> Str.all_chars P (substring n m s) = true.
Proof.
  revert n m. induction s as [|c r IH]; intros n m H.
  - now destruct n, m.
  - simpl in H. apply andb_prop in H as [Hc Hr].
    destruct n as [|n'].
    + destruct m as [|m']; simpl; [reflexivity|].
      rewrite Hc. simpl. now apply IH.
    + simpl. now apply IH.
Qed.

End StrFacts.

(** ** Facts about printed numbers *)

Module NumFacts.

Import StrFacts.

Lemma string_of_uint_chars (d : Decimal.uint) :
  Str.all_chars Num.number_char (NilEmpty.string_of_uint d) = true.
Proof. induction d; simpl; auto. Qed.

Lemma zeros_chars (n : nat) : Str.all_chars Num.number_char (Num.zeros n) = true.
Proof. induction n; simpl; auto. Qed.

Lemma strip_zeros_chars (P : ascii -> bool) (s : string) :
  Str.all_chars P s = true -> Str.all_chars P (Num.strip_zeros s) = true.
Proof.
  induction s as [|c r IH]; simpl; intros H; [reflexivity|].
  apply andb_prop in H as [Hc Hr]. specialize (IH Hr).
  destruct (Num.strip_zeros r) as [|c' r'].
  - destruct (c =? "0")%char; simpl; [reflexivity | now rewrite Hc].
  - simpl in *. now rewrite Hc, IH.
Qed.

Lemma positive_to_string_chars (p : positive) (e : Z) :
  Str.all_chars Num.number_char (Num.positive_to_string p e) = true.
Proof.
  unfold Num.positive_to_string.
  pose proof (string_of_uint_chars (N.to_uint (N.pos p))) as Hall.
  fold (Num.nat_digits (N.pos p)) in Hall.
  pose proof (strip_zeros_chars _ _ Hall) as Hs.
  set (s := Num.strip_zeros (Num.nat_digits (N.pos p))) in *.
  repeat match goal with
         | |- context [if ?b then _ else _] => destruct b
         end;
    rewrite ?all_chars_append, ?zeros_chars, ?Hs, ?all_chars_substring,
      ?string_of_uint_chars by assumption;
    try reflexivity;
    unfold Num.nat_digits; rewrite ?string_of_uint_chars;
    destruct s as [|d [|d' rest]]; simpl in *;
    try reflexivity;
    repeat match goal with
           | H : _ && _ = true |- _ => apply andb_prop in H as [? ?]
           end;
    repeat (apply andb_true_intro; split); auto.
Qed.

Lemma to_string_chars (m e : Z) :
  Str.all_chars Num.number_char (Num.to_string m e) = true.
Proof.
  destruct m as [|p|p]; simpl; [reflexivity | apply positive_to_string_chars |].
  apply positive_to_string_chars.
Qed.

(** A string that lower-cases to [true] starts with [t] or [T]. *)
Lemma lower_true_head (s : string) :
  Str.toLowerCase s = "true" ->
  exists c r, s = String c r /\ (c = "t"%char \/ c = "T"%char).
Proof.
  destruct s as [|c r]; simpl; [discriminate|].
  intros H. injection H as Hc _. exists c, r. split; [reflexivity|].
  now apply lower_char_t.
Qed.

(** No number prints as [true] in any letter case. *)
Lemma to_string_not_true (m e : Z) :
  (Str.toLowerCase (Num.to_string m e) =? "true") = false.
Proof.
  apply String.eqb_neq. intros H.
  apply lower_true_head in H as (c & r & Hs & Hc).
  pose proof (to_string_chars m e) as Hall. rewrite Hs in Hall. simpl in Hall.
  apply andb_prop in Hall as [Hch _].
  destruct Hc as [-> | ->]; vm_compute in Hch; discriminate.
Qed.

End NumFacts.

(** ** Facts about splitting at slashes *)

Module SplitFacts.

Import StrFacts.

Lemma includes_slash_cons (c : ascii) (r : string) :
  Str.includes "/" (String c r) = (c =? "/")%char || Str.includes "/" r.
Proof.
  cbn [Str.includes]. rewrite startsWith_cons, startsWith_nil, andb_true_r.
  now rewrite Ascii.eqb_sym.
Qed.

Lemma split_slash_not_nil (s : string) : Str.split_slash s <> [].
Proof.
  induction s as [|c r IH]; simpl; [discriminate|].
  destruct (c =? "/")%char; [discriminate|].
  now destruct (Str.split_slash r).
Qed.

Lemma split_slash_plain (s : string) :
  Str.includes "/" s = false -> Str.split_slash s = [s].
Proof.
  induction s as [|c r IH]; [reflexivity|].
  rewrite includes_slash_cons. intros H. apply orb_false_elim in H as [Hc Hr].
  simpl. now rewrite Hc, (IH Hr).
Qed.

(** Splitting at the first slash. *)
Lemma split_slash_first (a b : string) :
  Str.includes "/" a = false ->
  Str.split_slash (a ++ String "/" b) = a :: Str.split_slash b.
Proof.
  induction a as [|c r IH]; [reflexivity|].
  rewrite includes_slash_cons. intros H. apply orb_false_elim in H as [Hc Hr].
  cbn [append Str.split_slash]. now rewrite Hc, (IH Hr).
Qed.

Lemma concat_cons (sep x : string) (l : list string) :
  l <> [] -> String.concat sep (x :: l) = x ++ sep ++ String.concat sep l.
Proof. destruct l; [contradiction | reflexivity]. Qed.

(** Joining the pieces gives the text back. *)
Lemma join_split_slash (s : string) : Str.join "/" (Str.split_slash s) = s.
Proof.
  unfold Str.join. induction s as [|c r IH]; [reflexivity|].
  pose proof (split_slash_not_nil r) as Hn.
  cbn [Str.split_slash]. destruct (Ascii.eqb_spec c "/") as [->|_].
  - rewrite (concat_cons _ _ _ Hn), IH. reflexivity.
  - destruct (Str.split_slash r) as [|h t]; [contradiction|].
    cbn [Str.push]. destruct t as [|h' t'].
    + cbn [String.concat] in *. now subst h.
    + rewrite concat_cons by discriminate.
      rewrite concat_cons in IH by discriminate.
      now rewrite <- IH.
Qed.

Lemma space_not_slash (c : ascii) : Str.is_space c = true -> (c =? "/")%char = false.
Proof.
  intros H. destruct (Ascii.eqb_spec c "/") as [->|_]; [discriminate H | reflexivity].
Qed.

(** Trimming neither removes nor adds a slash. *)
Lemma includes_slash_trimStart (s : string) :
  Str.includes "/" (Str.trimStart s) = Str.includes "/" s.
Proof.
  induction s as [|c r IH]; [reflexivity|].
  cbn [Str.trimStart]. destruct (Str.is_space c) eqn:Hc; [|reflexivity].
  now rewrite includes_slash_cons, (space_not_slash _ Hc).
Qed.

Lemma includes_slash_trimEnd (s : string) :
  Str.includes "/" (Str.trimEnd s) = Str.includes "/" s.
Proof.
  induction s as [|c r IH]; [reflexivity|].
  rewrite includes_slash_cons, <- IH. cbn [Str.trimEnd].
  destruct (Str.trimEnd r) as [|a b].
  - destruct (Str.is_space c) eqn:Hc.
    + now rewrite (space_not_slash _ Hc).
    + now rewrite includes_slash_cons.
  - now rewrite includes_slash_cons.
Qed.

Lemma includes_slash_trim (s : string) :
  Str.includes "/" (Str.trim s) = Str.includes "/" s.
Proof. unfold Str.trim. now rewrite includes_slash_trimEnd, includes_slash_trimStart. Qed.

Lemma no_slash_trim (s : string) :
  Str.includes "/" s = false -> Str.includes "/" (Str.trim s) = false.
Proof. intros H. now rewrite includes_slash_trim. Qed.

(** A text with a slash splits at its first slash. *)
Lemma first_slash (s : string) :
  Str.includes "/" s = true ->
  exists a b, s = a ++ "/" ++ b /\ Str.includes "/" a = false.
Proof.
  induction s as [|c r IH]; [discriminate|].
  rewrite includes_slash_cons. destruct (Ascii.eqb_spec c "/") as [->|Hc].
  - intros _. now exists "", r.
  - cbn [orb]. intros H. destruct (IH H) as (a & b & -> & Ha).
    exists (String c a), b. split; [reflexivity|].
    rewrite includes_slash_cons, Ha. apply Ascii.eqb_neq in Hc. now rewrite Hc.
Qed.

Lemma trim_nonempty (s : string) : Str.trim s <> "" -> s <> "".
Proof. intros H ->. now apply H. Qed.

End SplitFacts.

(** ** JSON.parse: fuel and shape of the result *)

Module JsonFacts.
Import Json.

Lemma skip_ws_length (s : string) : String.length (skip_ws s) <= String.length s.
Proof. induction s as [|c r IH]; simpl; [lia|]. destruct (is_ws c); simpl; lia. Qed.

Lemma skip_ws_cons (s : string) (c : ascii) (r : string) :
  skip_ws s = String c r -> String.length r < String.length s.
Proof. intros H. pose proof (skip_ws_length s) as L. rewrite H in L. simpl in L. lia. Qed.

Lemma slice_length (n : nat) (s : string) :
  String.length (Str.slice n s) <= String.length s.
Proof.
  revert s. induction n as [|n IH]; intros s; simpl; [lia|].
  destruct s as [|c r]; simpl; [lia|]. specialize (IH r). lia.
Qed.

Lemma digits_length (s : string) :
  forall acc cnt v c r, digits acc cnt s = (v, c, r) -> String.length r <= String.length s.
Proof.
  induction s as [|d s IH]; simpl; intros acc cnt v c r H.
  - injection H as _ _ <-. simpl. lia.
  - destruct (is_digit d).
    + apply IH in H. lia.
    + injection H as _ _ <-. simpl. lia.
Qed.

Lemma cons_done_shorter (c : ascii) (p : PR string) (s s' : string) :
  shorter p s -> String.length s < String.length s' -> shorter (cons_done c p) s'.
Proof. destruct p; simpl; auto. lia. Qed.

Lemma parse_chars_shorter (s : string) : shorter (parse_chars s) s.
Proof.
  remember (String.length s) as n eqn:Hn.
  revert s Hn. induction n as [n IH] using lt_wf_ind. intros s Hn.
  destruct s as [|c r]; simpl; [exact I|].
  destruct (c =? "034")%char; [simpl; lia|].
  destruct (c =? "\")%char.
  - destruct r as [|e r1]; [exact I|].
    destruct (e =? "u")%char.
    + destruct r1 as [|h1 [|h2 [|h3 [|h4 r2]]]]; try exact I.
      destruct (hex4 h1 h2 h3 h4); [|exact I].
      eapply cons_done_shorter; [eapply (IH (String.length r2)); [|reflexivity]|];
        subst n; simpl; lia.
    + destruct (unescape e); [|exact I].
      eapply cons_done_shorter; [eapply (IH (String.length r1)); [|reflexivity]|];
        subst n; simpl; lia.
  - destruct (N_of_ascii c <? 32)%N; [exact I|].
    eapply cons_done_shorter; [eapply (IH (String.length r)); [|reflexivity]|];
      subst n; simpl; lia.
Qed.

Lemma parse_int_shorter (s : string) : shorter (parse_int s) s.
Proof.
  destruct s as [|c r]; simpl; [exact I|].
  destruct (c =? "0")%char; [simpl; lia|].
  destruct (is_digit c) eqn:Hd; [|exact I].
  match goal with
  | |- context [digits ?a ?b ?x] =>
      destruct (digits a b x) as [[v cnt] rest] eqn:E
  end.
  apply digits_length in E. simpl. lia.
Qed.

Lemma parse_frac_not_longer (v : Z) (s : string) : not_longer (parse_frac v s) s.
Proof.
  destruct s as [|c r]; simpl; [lia|].
  destruct (c =? ".")%char; [|simpl; lia].
  destruct (digits v 0 r) as [[v' cnt] rest] eqn:E.
  apply digits_length in E. destruct cnt; simpl; [exact I | lia].
Qed.

Lemma parse_exp_not_longer (s : string) : not_longer (parse_exp s) s.
Proof.
  destruct s as [|c r]; simpl; [lia|].
  destruct ((c =? "e")%char || (c =? "E")%char); [|simpl; lia].
  destruct r as [|sg r'].
  - simpl. exact I.
  - destruct (sg =? "-")%char;
      [|destruct (sg =? "+")%char];
      match goal with
      | |- context [digits ?a ?b ?x] =>
          destruct (digits a b x) as [[x0 cnt] rest] eqn:E;
          apply digits_length in E; destruct cnt; simpl in *; [exact I | lia]
      end.
Qed.

Lemma parse_number_shorter (s : string) : shorter (parse_number s) s.
Proof.
  unfold parse_number.
  assert (H : forall neg s1, String.length s1 <= String.length s ->
            shorter match parse_int s1 with
                    | Done i s2 =>
                        match parse_frac i s2 with
                        | Done (v, fd) s3 =>
                            match parse_exp s3 with
                            | Done x s4 =>
                                Done (JNum (if neg : bool then (- v)%Z else v)
                                           (x - Z.of_nat fd)%Z) s4
                            | Bad => Bad
                            | Starved => Starved
                            end
                        | Bad => Bad
                        | Starved => Starved
                        end
                    | Bad => Bad
                    | Starved => Starved
                    end s).
  { intros neg s1 Hle.
    pose proof (parse_int_shorter s1) as H1.
    destruct (parse_int s1) as [i s2| |]; simpl in *; auto.
    pose proof (parse_frac_not_longer i s2) as H2.
    destruct (parse_frac i s2) as [[v fd] s3| |]; simpl in *; auto.
    pose proof (parse_exp_not_longer s3) as H3.
    destruct (parse_exp s3) as [x s4| |]; simpl in *; auto. lia. }
  destruct s as [|c r]; [exact I|].
  destruct (c =? "-")%char; [apply (H true) | apply (H false)]; simpl; lia.
Qed.

Lemma parse_progress (f : nat) :
  (forall s, 2 * String.length s + 1 <= f -> shorter (parse_value f s) s) /\
  (forall s acc, 2 * String.length s + 2 <= f ->
                 shorter (parse_elements f s acc) s) /\
  (forall s acc, 2 * String.length s + 2 <= f ->
                 shorter (parse_members f s acc) s).
Proof.
  induction f as [|f (IHv & IHe & IHm)].
  - repeat split; intros; lia.
  - repeat split.
    + (* parse_value *)
      intros s Hf. simpl.
      destruct (skip_ws s) as [|c r] eqn:Hs; [exact I|].
      apply skip_ws_cons in Hs.
      destruct (c =? "{")%char.
      { destruct (skip_ws r) as [|c1 r1] eqn:Hr; [exact I|].
        pose proof (skip_ws_length r) as Lr. rewrite Hr in Lr.
        destruct (c1 =? "}")%char; [simpl in *; lia|].
        specialize (IHm (String c1 r1) []).
        destruct (parse_members f (String c1 r1) []); simpl in *; auto; lia. }
      destruct (c =? "[")%char.
      { destruct (skip_ws r) as [|c1 r1] eqn:Hr; [exact I|].
        pose proof (skip_ws_length r) as Lr. rewrite Hr in Lr.
        destruct (c1 =? "]")%char; [simpl in *; lia|].
        specialize (IHe (String c1 r1) []).
        destruct (parse_elements f (String c1 r1) []); simpl in *; auto; lia. }
      destruct (c =? "034")%char.
      { pose proof (parse_chars_shorter r) as Hc.
        destruct (parse_chars r); simpl in *; auto. lia. }
      destruct (Str.startsWith "true" (String c r)).
      { pose proof (slice_length 3 r). simpl in *. lia. }
      destruct (Str.startsWith "false" (String c r)).
      { pose proof (slice_length 4 r). simpl in *. lia. }
      destruct (Str.startsWith "null" (String c r)).
      { pose proof (slice_length 3 r). simpl in *. lia. }
      destruct ((c =? "-")%char || is_digit c); [|exact I].
      pose proof (parse_number_shorter (String c r)) as Hn.
      destruct (parse_number (String c r)); simpl in *; auto. lia.
    + (* parse_elements *)
      intros s acc Hf. simpl.
      specialize (IHv s).
      destruct (parse_value f s) as [v rest| |]; simpl in IHv;
        [|exact I|apply IHv; lia].
      assert (Hrest : String.length rest < String.length s) by (apply IHv; lia).
      destruct (skip_ws rest) as [|c r] eqn:Hs; [exact I|].
      apply skip_ws_cons in Hs.
      destruct (c =? ",")%char.
      { specialize (IHe r (acc ++ [v])%list).
        destruct (parse_elements f r (acc ++ [v])%list); simpl in *; auto; lia. }
      destruct (c =? "]")%char; simpl; [lia | exact I].
    + (* parse_members *)
      intros s acc Hf. simpl.
      destruct (skip_ws s) as [|q r] eqn:Hs; [exact I|].
      apply skip_ws_cons in Hs.
      destruct (q =? "034")%char; [|exact I].
      pose proof (parse_chars_shorter r) as Hc.
      destruct (parse_chars r) as [k r1| |]; simpl in Hc; [|exact I|exact Hc].
      destruct (skip_ws r1) as [|c2 r2] eqn:Hs1; [exact I|].
      apply skip_ws_cons in Hs1.
      destruct (c2 =? ":")%char; [|exact I].
      specialize (IHv r2).
      destruct (parse_value f r2) as [v r3| |]; simpl in IHv;
        [|exact I|apply IHv; lia].
      assert (Hr3 : String.length r3 < String.length r2) by (apply IHv; lia).
      destruct (skip_ws r3) as [|c4 r4] eqn:Hs3; [exact I|].
      apply skip_ws_cons in Hs3.
      destruct (c4 =? ",")%char.
      { specialize (IHm r4 (set_prop k v acc)).
        destruct (parse_members f r4 (set_prop k v acc)); simpl in *; auto; lia. }
      destruct (c4 =? "}")%char; simpl; [lia | exact I].
Qed.

(** The fuel [parse_text] gives always suffices. *)
Lemma parse_text_not_starved (s : string) : parse_text s <> Starved.
Proof.
  unfold parse_text. intros H.
  pose proof (proj1 (parse_progress (2 * String.length s + 1)) s (le_n _)) as P.
  rewrite H in P. exact P.
Qed.

(** What the two loops return is an array, respectively an object. *)
Lemma parse_loops_container (f : nat) :
  (forall s acc v r, parse_elements f s acc = Done v r -> exists l, v = JArray l) /\
  (forall s acc v r, parse_members f s acc = Done v r -> exists ps, v = JObject ps).
Proof.
  induction f as [|f (IHe & IHm)]; [split; intros; discriminate|].
  split; intros s acc v r; simpl.
  - destruct (parse_value f s) as [v0 rest| |]; try discriminate.
    destruct (skip_ws rest) as [|c r0]; try discriminate.
    destruct (c =? ",")%char; [apply IHe|].
    destruct (c =? "]")%char; [|discriminate].
    intros H. injection H as <- _. eauto.
  - destruct (skip_ws s) as [|q r0]; try discriminate.
    destruct (q =? "034")%char; [|discriminate].
    destruct (parse_chars r0) as [k r1| |]; try discriminate.
    destruct (skip_ws r1) as [|c2 r2]; try discriminate.
    destruct (c2 =? ":")%char; [|discriminate].
    destruct (parse_value f r2) as [v0 r3| |]; try discriminate.
    destruct (skip_ws r3) as [|c4 r4]; try discriminate.
    destruct (c4 =? ",")%char; [apply IHm|].
    destruct (c4 =? "}")%char; [|discriminate].
    intros H. injection H as <- _. eauto.
Qed.

(** A text that starts with a brace or a bracket parses, if at all, to
    an object or an array: a truthy value. *)
Lemma parse_value_container (f : nat) (s rest : string) (v : JsVal) :
  Str.startsWith "{" s || Str.startsWith "[" s = true ->
  parse_value f s = Done v rest -> truthy v = true.
Proof.
  intros Hb. destruct f as [|f]; [discriminate|].
  destruct s as [|c r]; [discriminate Hb|].
  rewrite !StrFacts.startsWith_cons, !StrFacts.startsWith_nil, !andb_true_r in Hb.
  apply orb_prop in Hb as [Hb|Hb]; apply Ascii.eqb_eq in Hb; subst c; simpl;
    destruct (skip_ws r) as [|c1 r1]; try discriminate.
  - destruct (c1 =? "}")%char.
    + intros H. now injection H as <- _.
    + intros H. apply (proj2 (parse_loops_container f)) in H as [ps ->]. reflexivity.
  - destruct (c1 =? "]")%char.
    + intros H. now injection H as <- _.
    + intros H. apply (proj1 (parse_loops_container f)) in H as [l ->]. reflexivity.
Qed.

Lemma parse_container_truthy (s : string) (v : JsVal) :
  Str.startsWith "{" s || Str.startsWith "[" s = true ->
  parse s = Some v -> truthy v = true.
Proof.
  intros Hb. unfold parse, parse_text.
  destruct (parse_value (2 * String.length s + 1) s) as [v0 rest| |] eqn:E;
    try discriminate.
  destruct (skip_ws rest); try discriminate.
  intros H. injection H as <-. eapply parse_value_container; eauto.
Qed.

End JsonFacts.

(** ** The fenced-block pattern *)

Module FenceFacts.

Import StrFacts Fence.

Lemma includes_cons (p : string) (c : ascii) (r : string) :
  Str.includes p (String c r) = Str.startsWith p (String c r) || Str.includes p r.
Proof. reflexivity. Qed.

Lemma includes_cons_false (p : string) (c : ascii) (r : string) :
  Str.includes p (String c r) = false ->
  Str.startsWith p (String c r) = false /\ Str.includes p r = false.
Proof. rewrite includes_cons. apply orb_false_elim. Qed.

(** Dropping leading white space keeps a text free of the pattern. *)
Lemma includes_trimStart (p a x : string) :
  Str.includes p (a ++ x) = false -> Str.includes p (Str.trimStart a ++ x) = false.
Proof.
  induction a as [|c r IH]; simpl; [auto|]. intros H.
  destruct (Str.is_space c); [|exact H].
  apply IH. change (String c (r ++ x)) with (String c (r ++ x)) in H.
  now apply includes_cons_false in H.
Qed.

Lemma trimStart_append (a : string) (d : ascii) (b : string) :
  Str.is_space d = false ->
  Str.trimStart (a ++ String d b) = Str.trimStart a ++ String d b.
Proof.
  intros Hd. induction a as [|c r IH]; simpl.
  - now rewrite Hd.
  - destruct (Str.is_space c); [exact IH | reflexivity].
Qed.

Lemma trimEnd_nil_trimStart (t x : string) :
  Str.trimEnd t = "" -> Str.trimStart (t ++ x) = Str.trimStart x.
Proof.
  induction t as [|c r IH]; simpl; [reflexivity|].
  destruct (Str.trimEnd r) eqn:E; [|discriminate].
  destruct (Str.is_space c); [|discriminate]. intros _. now apply IH.
Qed.

(** Greedy [\s*]: when the rest of the pattern matches after the whole
    run of white space, that is the match. *)
Lemma star_space_greedy (A : Type) (s : string) (k : string -> option A) (x : A) :
  k (Str.trimStart s) = Some x -> star_space s k = Some x.
Proof.
  induction s as [|c r IH]; simpl; [auto|].
  destruct (Str.is_space c); [|auto].
  intros H. now rewrite (IH H).
Qed.

(** The tail [\s*```] matches exactly when the fence follows the white
    space: giving white space back never helps. *)
Lemma closes_spec (s : string) :
  closes s = Str.startsWith ticks (Str.trimStart s).
Proof.
  unfold closes. induction s as [|c r IH]; simpl; [reflexivity|].
  destruct (Str.is_space c) eqn:Hc.
  - destruct (star_space r _) as [[]|] eqn:E.
    + exact IH.
    + rewrite <- IH. unfold ticks. rewrite startsWith_cons.
      destruct (Ascii.eqb_spec "`" c) as [<-|_]; [discriminate Hc | reflexivity].
  - now destruct (Str.startsWith ticks (String c r)).
Qed.

Lemma lazy_capture_closes (s : string) :
  closes s = true -> lazy_capture s = Some "".
Proof. intros H. destruct s; cbn [lazy_capture]; now rewrite H. Qed.

Lemma closes_blank (t post : string) :
  Str.trimEnd t = "" -> closes (t ++ ticks ++ post) = true.
Proof.
  intros H. rewrite closes_spec, (trimEnd_nil_trimStart _ _ H).
  change (Str.trimStart (ticks ++ post)) with (ticks ++ post).
  apply startsWith_append.
Qed.

Lemma fence_split (t post : string) :
  t ++ ticks ++ post = (t ++ "``") ++ String "`" post.
Proof. now rewrite append_assoc. Qed.

(** Lazy [([\s\S]*?)]: up to the closing fence, less the white space
    before it. *)
Lemma lazy_capture_body (t post : string) :
  Str.includes ticks (t ++ "``") = false ->
  lazy_capture (t ++ ticks ++ post) = Some (Str.trimEnd t).
Proof.
  induction t as [|c r IH]; intros Hinc.
  - apply lazy_capture_closes. now apply closes_blank.
  - change (String c r ++ "``") with (String c (r ++ "``")) in Hinc.
    apply includes_cons_false in Hinc as [Hhead Hrest].
    specialize (IH Hrest).
    change (String c r ++ ticks ++ post) with (String c (r ++ ticks ++ post)).
    assert (Hcl : closes (String c (r ++ ticks ++ post))
                  = Str.is_space c && closes (r ++ ticks ++ post)).
    { rewrite !closes_spec. cbn [Str.trimStart].
      destruct (Str.is_space c); [reflexivity|].
      cbn [andb]. rewrite fence_split.
      change (String c ((r ++ "``") ++ String "`" post))
        with (String c (r ++ "``") ++ String "`" post).
      rewrite startsWith_append_long; [exact Hhead|].
      simpl. rewrite length_append. simpl. lia. }
    cbn [lazy_capture]. rewrite Hcl, IH. cbn [option_map].
    change (Str.trimEnd (String c r))
      with (match Str.trimEnd r with
            | "" => if Str.is_space c then "" else String c ""
            | String a b => String c (String a b)
            end).
    destruct (Str.is_space c) eqn:Hc; cbn [andb].
    + destruct (closes (r ++ ticks ++ post)) eqn:E.
      * apply lazy_capture_closes in E. rewrite IH in E. injection E as E.
        now rewrite E.
      * destruct (Str.trimEnd r) eqn:Et; [|reflexivity].
        rewrite (closes_blank _ _ Et) in E. discriminate E.
    + now destruct (Str.trimEnd r).
Qed.

Lemma after_tag_body (inner post : string) :
  Str.includes ticks (inner ++ "``") = false ->
  after_tag (inner ++ ticks ++ post) = Some (Str.trim inner).
Proof.
  intros Hinc. unfold after_tag. apply star_space_greedy.
  change (ticks ++ post) with (String "`" ("``" ++ post)).
  rewrite trimStart_append by reflexivity.
  change (String "`" ("``" ++ post)) with (ticks ++ post).
  apply lazy_capture_body. now apply includes_trimStart.
Qed.

Lemma slice_ticks (y : string) : Str.slice 3 (ticks ++ y) = y.
Proof. reflexivity. Qed.

(** A short text followed by a fence does not start with the tag. *)
Lemma no_tag_append (inner post : string) :
  Str.startsWith "json" (Str.toLowerCase inner) = false ->
  Str.startsWith "json" (Str.toLowerCase (inner ++ ticks ++ post)) = false.
Proof.
  intros H. rewrite toLowerCase_append.
  destruct (Nat.le_gt_cases 4 (String.length inner)) as [Hlen|Hlen].
  - rewrite startsWith_append_long; [exact H|]. now rewrite toLowerCase_length.
  - destruct inner as [|a [|b [|c [|d r]]]]; simpl in Hlen; try lia; clear;
      cbn [Str.toLowerCase append ticks];
      rewrite ?startsWith_cons;
      change (Str.lower_char "`") with "`"%char;
      cbn [Ascii.eqb Bool.eqb]; now rewrite ?andb_false_r.
Qed.

Lemma match_here_block (tag inner post : string) :
  (tag = "" /\ Str.startsWith "json" (Str.toLowerCase inner) = false) \/
  Str.toLowerCase tag = "json" ->
  Str.includes ticks (inner ++ "``") = false ->
  match_here (ticks ++ tag ++ inner ++ ticks ++ post) = Some (Str.trim inner).
Proof.
  intros Htag Hinc. unfold match_here.
  rewrite startsWith_append, slice_ticks.
  destruct Htag as [[-> Hno] | Htag].
  - cbn [append]. rewrite (no_tag_append _ post Hno).
    now apply after_tag_body.
  - assert (Hlen : String.length tag = 4).
    { rewrite <- toLowerCase_length, Htag. reflexivity. }
    rewrite toLowerCase_append, Htag, startsWith_append.
    rewrite <- Hlen, slice_append.
    now rewrite after_tag_body.
Qed.

Lemma search_here (s cap : string) :
  match_here s = Some cap -> search s = Some cap.
Proof. intros H. destruct s; cbn [search]; now rewrite H. Qed.

(** The leftmost match starts at the first fence. *)
Lemma search_first_fence (pre y cap : string) :
  Str.includes ticks (pre ++ "``") = false ->
  match_here (ticks ++ y) = Some cap ->
  search (pre ++ ticks ++ y) = Some cap.
Proof.
  intros Hinc Hm. induction pre as [|c p IH].
  - now apply search_here.
  - change (String c p ++ "``") with (String c (p ++ "``")) in Hinc.
    apply includes_cons_false in Hinc as [Hhead Hrest].
    change (String c p ++ ticks ++ y) with (String c (p ++ ticks ++ y)).
    cbn [search]. unfold match_here at 1.
    rewrite fence_split.
    change (String c ((p ++ "``") ++ String "`" y))
      with (String c (p ++ "``") ++ String "`" y).
    rewrite startsWith_append_long, Hhead.
    + change (String c (p ++ "``") ++ String "`" y)
        with (String c ((p ++ "``") ++ String "`" y)).
      rewrite <- fence_split. now apply IH.
    + simpl. rewrite length_append. simpl. lia.
Qed.

(** Without three backticks in a row there is no match. *)
Lemma search_none (s : string) :
  Str.includes ticks s = false -> search s = None.
Proof.
  induction s as [|c r IH]; [reflexivity|].
  intros H. apply includes_cons_false in H as [Hh Hr].
  cbn [search]. unfold match_here. now rewrite Hh, (IH Hr).
Qed.

Lemma trimEnd_idem (s : string) : Str.trimEnd (Str.trimEnd s) = Str.trimEnd s.
Proof.
  induction s as [|c r IH]; [reflexivity|]. cbn [Str.trimEnd].
  destruct (Str.trimEnd r) as [|a b] eqn:E.
  - destruct (Str.is_space c) eqn:Hc; [reflexivity|]. simpl. now rewrite Hc.
  - change (Str.trimEnd (String c (String a b)))
      with (match Str.trimEnd (String a b) with
            | "" => if Str.is_space c then "" else String c ""
            | String x y => String c (String x y)
            end).
    now rewrite IH.
Qed.

Lemma trim_idem (s : string) : Str.trim (Str.trim s) = Str.trim s.
Proof.
  unfold Str.trim.
  assert (H : Str.trimStart (Str.trimEnd (Str.trimStart s))
              = Str.trimEnd (Str.trimStart s)).
  { induction s as [|c r IH]; [reflexivity|]. cbn [Str.trimStart].
    destruct (Str.is_space c) eqn:Hc; [exact IH|].
    cbn [Str.trimEnd]. destruct (Str.trimEnd r); rewrite ?Hc; simpl; now rewrite Hc. }
  now rewrite H, trimEnd_idem.
Qed.

End FenceFacts.

(** ** The stages of the main function *)

Lemma mbind_lift (A B : Type) (e : Exc A) (k : A -> M B) (p : Proc) :
  mbind (lift e) k p
  = match e with
    | Ok a => k a p
    | Throw msg => (Throw msg, p)
    end.
Proof. unfold mbind, lift. now destruct e. Qed.

(** One step of a stage: rewrite the head bind and split on its
    computation. *)
Ltac step :=
  rewrite mbind_lift;
  match goal with
  | |- context [match ?e with Ok _ => _ | Throw _ => _ end] =>
      let E := fresh "E" in destruct e eqn:E
  end;
  cbv beta.

Create HintDb stages.

#[local] Hint Constructors stage_end : stages.

Section Stages.

Variable w : World.

(** The executor either throws before the request, or issues the one
    request described by its arguments and then rejects with the
    request or writes the envelope of the response. *)
Lemma execute_cases (params prompt : JsVal) (factory : Factory)
    (key url : option string) (chat : bool) (modelName : string) (p : Proc) :
  (exists msg,
      execute w params prompt factory key url chat modelName p = (Throw msg, p)) \/
  (exists rq,
      (rq_factory rq = factory /\ rq_apiKey rq = key /\ rq_baseURL rq = url /\
       rq_chatModel rq = chat /\ rq_model rq = modelName /\ rq_prompt rq = prompt) /\
      ((exists msg,
           generateText w rq = Throw msg /\
           execute w params prompt factory key url chat modelName p
           = (Throw msg,
              {| stdout := stdout p;
                 requests := (requests p ++ [rq])%list;
                 exit_scheduled := exit_scheduled p |})) \/
       (exists result raw flag,
           generateText w rq = Ok result /\
           js_get params "expect_json" = Ok raw /\
           expectJson_of raw = Ok flag /\
           execute w params prompt factory key url chat modelName p
           = (Ok JUndefined,
              {| stdout := (stdout p ++ [respond flag (text_of result)])%list;
                 requests := (requests p ++ [rq])%list;
                 exit_scheduled := true |})))).
Proof.
  unfold execute.
  do 14 (step; [|left; eexists; reflexivity]).
  right.
  match goal with
  | |- context [await_generateText w ?r] => exists r
  end.
  split; [repeat split|].
  unfold mbind, await_generateText, writeExit.
  match goal with
  | |- context [generateText w ?rq] => destruct (generateText w rq) eqn:G
  end.
  - right. do 3 eexists. repeat split; eauto.
  - left. eexists. split; reflexivity.
Qed.

Lemma execute_end (params prompt : JsVal) (factory : Factory)
    (key url : option string) (chat : bool) (modelName : string) (p : Proc) :
  stage_end w params p (execute w params prompt factory key url chat modelName p).
Proof.
  destruct (execute_cases params prompt factory key url chat modelName p)
    as [[msg ->] | (rq & _ & [(msg & G & ->) | (result & raw & flag & G & R & F & ->)])];
    eauto with stages.
Qed.

Lemma resolve_end (params prompt : JsVal)
    (baseURL providerName modelName : string) (p : Proc) :
  stage_end w params p (resolve w params prompt baseURL providerName modelName p).
Proof.
  unfold resolve.
  destruct ((providerName =? "local") && negb (Str.nonempty baseURL));
    [auto with stages|].
  match goal with
  | |- context [if ?b then _ else _] => destruct b; [auto with stages|]
  end.
  step; [|auto with stages].
  destruct a as [[factory key url chat|]|].
  - apply execute_end.
  - apply end_thrown.
  - auto with stages.
Qed.

Lemma normalize_end (params : JsVal) (p : Proc) :
  stage_end w params p (normalize w params p).
Proof.
  unfold normalize.
  step; [|auto with stages].
  step; [|auto with stages].
  destruct (negb (Str.nonempty a0)); [auto with stages|].
  step; [|auto with stages].
  step; [|auto with stages].
  destruct (negb (Str.nonempty a2)); [auto with stages|].
  step; [|auto with stages].
  destruct a3 as [info|]; [|auto with stages].
  apply resolve_end.
Qed.

(** The outcome of the process when a stage that ends the main
    function is started with nothing written. *)
Lemma settle_stage (params : JsVal) (out : Exc JsVal * Proc) :
  stage_end w params start out ->
  (exists code description,
      settle out
      = {| lines := [failure code description]; issued := [];
           status := Exited 0 |}) \/
  (exists rq msg,
      generateText w rq = Throw msg /\
      settle out
      = {| lines := [failure "error"
                       (if Str.nonempty msg then msg else "Unknown error")];
           issued := [rq];
           status := Exited 0 |}) \/
  (exists rq result raw flag,
      generateText w rq = Ok result /\
      js_get params "expect_json" = Ok raw /\
      expectJson_of raw = Ok flag /\
      settle out
      = {| lines := [respond flag (text_of result)]; issued := [rq];
           status := Exited 0 |}).
Proof.
  intros [msg | code description | rq msg G | rq result raw flag G R F].
  - left. do 2 eexists. reflexivity.
  - left. do 2 eexists. reflexivity.
  - right. left. exists rq, msg. now split.
  - right. right. exists rq, result, raw, flag. now repeat split.
Qed.

Lemma main_parsed (job : JsVal) :
  Json.parse (Str.trim (stdin w)) = Some job ->
  main w start
  = match js_get job "params" with
    | Ok job_params => normalize w (js_or job_params (JObject [])) start
    | Throw msg => (Throw msg, start)
    end.
Proof.
  intros Hp. unfold main, readJob. rewrite Hp.
  destruct (Str.trim (stdin w)); [discriminate Hp|].
  cbn [Str.nonempty negb]. unfold mbind, lift, ret.
  now destruct (js_get job "params").
Qed.

Lemma main_unparsed :
  Json.parse (Str.trim (stdin w)) = None ->
  exists description,
    main w start
    = (Throw "Cannot read properties of undefined (reading 'params')",
       {| stdout := [failure "input" description];
          requests := [];
          exit_scheduled := true |}).
Proof.
  intros Hp. unfold main, readJob. rewrite Hp.
  destruct (Str.nonempty (Str.trim (stdin w))); eexists; reflexivity.
Qed.

(** When the input parses, the run is the settled normalizer. *)
Lemma run_of_params (params : JsVal) :
  params_of w = Some params -> run w = settle (normalize w params start).
Proof.
  unfold params_of, run.
  destruct (Json.parse (Str.trim (stdin w))) as [job|] eqn:Hp; [|discriminate].
  rewrite (main_parsed _ Hp).
  destruct (js_get job "params") as [job_params|]; [|discriminate].
  now intros [= <-].
Qed.

(** When the input parses, the run writes one envelope and exits with
    code 0: a failure without a request, the [error] failure of a
    rejected request, or the envelope of the response under the flag
    that [params.expect_json] stands for. *)
Lemma run_parsed (job : JsVal) :
  Json.parse (Str.trim (stdin w)) = Some job ->
  (exists code description,
      run w
      = {| lines := [failure code description]; issued := [];
           status := Exited 0 |}) \/
  (exists rq msg,
      generateText w rq = Throw msg /\
      run w
      = {| lines := [failure "error"
                       (if Str.nonempty msg then msg else "Unknown error")];
           issued := [rq];
           status := Exited 0 |}) \/
  (exists rq result params raw flag,
      generateText w rq = Ok result /\
      params_of w = Some params /\
      js_get params "expect_json" = Ok raw /\
      expectJson_of raw = Ok flag /\
      run w
      = {| lines := [respond flag (text_of result)]; issued := [rq];
           status := Exited 0 |}).
Proof.
  intros Hp. unfold run. rewrite (main_parsed _ Hp).
  destruct (js_get job "params") as [job_params|msg] eqn:Hg.
  - destruct (settle_stage _ _ (normalize_end (js_or job_params (JObject [])) start))
      as [H | [H | (rq & result & raw & flag & G & R & F & E)]]; auto.
    right. right. exists rq, result, (js_or job_params (JObject [])), raw, flag.
    repeat split; auto. unfold params_of. now rewrite Hp, Hg.
  - left. do 2 eexists. reflexivity.
Qed.

(** When the input does not parse, the run writes two envelopes: the
    [input] failure of [readJob], then the [error] failure of the
    catch-all, because [readJob] returns [undefined] and the main
    function goes on. *)
Lemma run_unparsed :
  Json.parse (Str.trim (stdin w)) = None ->
  exists description,
    run w
    = {| lines :=
           [failure "input" description;
            failure "error" "Cannot read properties of undefined (reading 'params')"];
         issued := [];
         status := Exited 0 |}.
Proof.
  intros Hp. destruct (main_unparsed Hp) as [description Hm].
  exists description. unfold run. now rewrite Hm.
Qed.

(** Every run exits with code 0. *)
Lemma run_exit_code : status (run w) = Exited 0.
Proof.
  destruct (Json.parse (Str.trim (stdin w))) as [job|] eqn:Hp.
  - destruct (run_parsed _ Hp)
      as [(c & d & ->) | [(rq & msg & _ & ->) | (rq & r & ps & raw & f & _ & _ & _ & _ & ->)]];
      reflexivity.
  - destruct (run_unparsed Hp) as [d ->]. reflexivity.
Qed.

(** A response that arrives is what the one envelope is computed from. *)
Lemma run_answered (rq : Request) (result : JsVal) :
  In rq (issued (run w)) ->
  generateText w rq = Ok result ->
  exists params raw flag,
    params_of w = Some params /\
    js_get params "expect_json" = Ok raw /\
    expectJson_of raw = Ok flag /\
    lines (run w) = [respond flag (text_of result)].
Proof.
  intros Hin G.
  destruct (Json.parse (Str.trim (stdin w))) as [job|] eqn:Hp.
  - destruct (run_parsed _ Hp)
      as [(c & d & E) | [(rq' & msg & G' & E)
                        | (rq' & r & ps & raw & f & G' & P & R & F & E)]];
      rewrite E in *; simpl in Hin.
    + contradiction.
    + destruct Hin as [<- | []]. congruence.
    + destruct Hin as [<- | []]. exists ps, raw, f. repeat split; auto.
      simpl. congruence.
  - destruct (run_unparsed Hp) as [d E]. rewrite E in Hin. contradiction.
Qed.

End Stages.

(** ** The output writer *)

(** C1 (the code at the failing input): with nothing on standard input,
    or with input that is not JSON, two envelopes are written before
    the process exits with code 0. *)
Theorem C1_unreadable_input_two_lines :
  run empty_input_world
  = {| lines :=
         [failure "input" "No JSON input received on STDIN.";
          failure "error" "Cannot read properties of undefined (reading 'params')"];
       issued := [];
       status := Exited 0 |} /\
  run bad_input_world
  = {| lines :=
         [failure "input" "Failed to parse JSON input: Unexpected token";
          failure "error" "Cannot read properties of undefined (reading 'params')"];
       issued := [];
       status := Exited 0 |}.
Proof. split; reflexivity. Qed.

(** ** JSON extraction *)

Lemma bracketed_nonempty (c : string) : bracketed c = true -> Str.nonempty c = true.
Proof. now destruct c. Qed.

Lemma bracketed_head (c : string) :
  bracketed c = true -> Str.startsWith "{" c || Str.startsWith "[" c = true.
Proof.
  unfold bracketed. intros H. apply orb_prop in H as [H|H];
    apply andb_prop in H as [H _]; rewrite H; auto using orb_true_r.
Qed.

Lemma candidate_of_nil : candidate_of "" = "".
Proof. reflexivity. Qed.

(** The fenced block that the pattern finds first. *)
Lemma candidate_of_fenced (text pre tag inner post : string) :
  Str.trim text = pre ++ "```" ++ tag ++ inner ++ "```" ++ post ->
  Str.includes "```" (pre ++ "``") = false ->
  (tag = "" /\ Str.startsWith "json" (Str.toLowerCase inner) = false) \/
  Str.toLowerCase tag = "json" ->
  Str.includes "```" (inner ++ "``") = false ->
  candidate_of text = Str.trim inner.
Proof.
  intros Htext Hpre Htag Hinner. unfold candidate_of. rewrite Htext.
  change "```" with Fence.ticks in *.
  rewrite (FenceFacts.search_first_fence pre (tag ++ inner ++ Fence.ticks ++ post)
             (Str.trim inner)).
  - apply FenceFacts.trim_idem.
  - exact Hpre.
  - now apply FenceFacts.match_here_block.
Qed.

Lemma extractJson_unbracketed (text : string) :
  bracketed (candidate_of text) = false -> extractJson text = no_json.
Proof.
  intros H. unfold extractJson. rewrite H.
  destruct (Str.nonempty text); [|reflexivity].
  now destruct (Str.nonempty (candidate_of text)).
Qed.

Lemma extractJson_bracketed (text : string) :
  bracketed (candidate_of text) = true ->
  extractJson text
  = {| parsed := match Json.parse (candidate_of text) with
                 | Some v => v
                 | None => JNull
                 end;
       jsonText := JString (candidate_of text) |}.
Proof.
  intros H. unfold extractJson. rewrite H, (bracketed_nonempty _ H).
  destruct text as [|c r]; [discriminate H|]. simpl.
  now destruct (Json.parse (candidate_of (String c r))).
Qed.



(** ** The response decision *)

Lemma respond_no_candidate (text : string) :
  bracketed (candidate_of text) = false ->
  respond true text = failure "json" "No JSON returned by model." /\
  respond false text = success (JObject [("text", JString text)]).
Proof.
  intros H. unfold respond. now rewrite (extractJson_unbracketed _ H).
Qed.

Lemma respond_invalid (text : string) :
  bracketed (candidate_of text) = true ->
  Json.parse (candidate_of text) = None ->
  respond true text = failure "json" "Invalid JSON returned by model." /\
  respond false text = success (JObject [("text", JString text)]).
Proof.
  intros H Hp. unfold respond. rewrite (extractJson_bracketed _ H), Hp. simpl.
  now rewrite (bracketed_nonempty _ H).
Qed.

Lemma respond_parsed (flag : bool) (text : string) (v : JsVal) :
  bracketed (candidate_of text) = true ->
  Json.parse (candidate_of text) = Some v ->
  respond flag text = success v.
Proof.
  intros H Hp. unfold respond. rewrite (extractJson_bracketed _ H), Hp. simpl.
  rewrite (JsonFacts.parse_container_truthy _ _ (bracketed_head _ H) Hp).
  now rewrite andb_false_r.
Qed.



(** ** Stop sequences *)

(** A string input never yields an empty list: the split path turns an
    empty result into [undefined]. *)
Lemma parseStopSequences_string_not_empty_list (s : string) :
  parseStopSequences (JString s) <> Ok (JArray []).
Proof.
  unfold parseStopSequences. destruct (truthy (JString s)); simpl; [|discriminate].
  destruct (filter Str.nonempty (map Str.trim (Str.split_stop s))); simpl; discriminate.
Qed.

(** An absent or empty value yields [undefined]. *)
Lemma parseStopSequences_absent :
  parseStopSequences JUndefined = Ok JUndefined /\
  parseStopSequences JNull = Ok JUndefined /\
  parseStopSequences (JString "") = Ok JUndefined.
Proof. repeat split. Qed.

(** A list input: the elements coerced to strings, empty ones dropped. *)
Lemma parseStopSequences_list (elems : list JsVal) (strs : list string) :
  map_String elems = Ok strs ->
  parseStopSequences (JArray elems)
  = Ok (JArray (map JString (filter Str.nonempty strs))).
Proof. intros H. unfold parseStopSequences. simpl. now rewrite H. Qed.

(** A list whose elements all coerce to the empty string, the empty
    list among them, yields the empty list. *)
Lemma parseStopSequences_all_empty (elems : list JsVal) (strs : list string) :
  map_String elems = Ok strs ->
  Forall (fun s => s = "") strs ->
  parseStopSequences (JArray elems) = Ok (JArray []).
Proof.
  intros H Hall. rewrite (parseStopSequences_list _ _ H). do 2 f_equal.
  clear H. induction Hall as [|s rest Hs _ IH]; [reflexivity|].
  subst s. exact IH.
Qed.

(** C4 (the code at the failing input): an empty list, or a list of
    empty strings, is returned as the empty list, and the request
    carries [stopSequences: []] rather than no stop-sequence argument.
    The string input of the specification, [a, b<LF>c], yields the
    three parts. *)
Theorem C4_stop_sequences_empty_list :
  parseStopSequences (JArray []) = Ok (JArray []) /\
  parseStopSequences (JArray [JString ""; JString ""]) = Ok (JArray []) /\
  map rq_stopSequences (issued (run stop_world)) = [JArray []] /\
  parseStopSequences (JString ("a, b" ++ LF ++ "c"))
  = Ok (JArray [JString "a"; JString "b"; JString "c"]).
Proof. repeat split; vm_compute; reflexivity. Qed.

(** ** The credential and provider resolver *)

Lemma or_else_value (value : option string) (otherwise v : string) :
  value = Some v -> v <> "" -> or_else value otherwise = v.
Proof. intros -> Hv. unfold or_else. now destruct v. Qed.

Lemma or_else_unset (value : option string) (otherwise : string) :
  value = None \/ value = Some "" -> or_else value otherwise = otherwise.
Proof. now intros [-> | ->]. Qed.

Lemma provider_env_own (name var : string) :
  In (name, var) PROVIDER_ENV -> member PROVIDER_ENV name = Own var.
Proof.
  intros H. simpl in H.
  repeat (destruct H as [H|H]; [injection H as <- <-; reflexivity|]).
  contradiction.
Qed.

Lemma lower_char_idem (c : ascii) :
  Str.lower_char (Str.lower_char c) = Str.lower_char c.
Proof. destruct c as [[] [] [] [] [] [] [] []]; reflexivity. Qed.

Lemma toLowerCase_idem (s : string) :
  Str.toLowerCase (Str.toLowerCase s) = Str.toLowerCase s.
Proof.
  induction s as [|c r IH]; [reflexivity|].
  cbn [Str.toLowerCase]. now rewrite lower_char_idem, IH.
Qed.

(** The provider names the resolver receives are in lower case. *)
Lemma selectProvider_lower (baseURL modelRaw : string) (info : ModelInfo) :
  selectProvider baseURL modelRaw = Ok (Some info) ->
  Str.toLowerCase (provider info) = provider info.
Proof.
  unfold selectProvider. destruct (Str.nonempty baseURL).
  - now intros [= <-].
  - unfold normalizeModel.
    destruct (js_String (js_or (JString modelRaw) (JString ""))) as [s|];
      [|discriminate].
    cbn [ebind]. destruct (negb (Str.nonempty (Str.trim s))); [discriminate|].
    destruct (Str.split_slash (Str.trim s)) as [|first [|second rest]];
      try discriminate.
    intros [= <-]. apply toLowerCase_idem.
Qed.



(** The three checks of the resolver, in their order. *)
Lemma validation_order (w : World) (params prompt : JsVal)
    (baseURL providerName modelName : string) (p : Proc) :
  (providerName = "local" -> baseURL = "" ->
   resolve w params prompt baseURL providerName modelName p
   = fail "params" "Parameter 'base_url' is required for provider 'local'." p) /\
  (providerName <> "local" -> baseURL = "" -> resolveApiKey w providerName = "" ->
   resolve w params prompt baseURL providerName modelName p
   = fail "env" ("Missing API key. Set " ++ envName_of providerName
                 ++ " or AI_API_KEY.") p) /\
  (member PROVIDERS providerName = Missing ->
   baseURL <> "" \/ resolveApiKey w providerName <> "" ->
   resolve w params prompt baseURL providerName modelName p
   = fail "params" ("Unsupported provider '" ++ providerName
                    ++ "'. Supported providers: anthropic, cohere, deepseek, "
                    ++ "google, groq, local, mistral, openai, xai.") p).
Proof.
  unfold resolve. repeat split.
  - intros -> ->. reflexivity.
  - intros Hn -> ->. apply String.eqb_neq in Hn. now rewrite Hn.
  - intros Hm Hk.
    assert (Hn : (providerName =? "local") = false).
    { apply String.eqb_neq. intros ->. discriminate Hm. }
    rewrite Hn. cbn [andb].
    assert (Hc : negb (Str.nonempty (resolveApiKey w providerName))
                 && negb (Str.nonempty baseURL) = false).
    { destruct Hk as [Hk|Hk].
      - apply StrFacts.nonempty_true in Hk. rewrite Hk. apply andb_false_r.
      - apply StrFacts.nonempty_true in Hk. now rewrite Hk. }
    rewrite Hc. cbn [andb]. rewrite mbind_lift. unfold buildProvider. now rewrite Hm.
Qed.

(** C5 (the code at the failing input): the provider name [constructor]
    has no entry in [PROVIDERS], a key is resolved and there is no base
    URL; the lookup finds the inherited [Object] function, so the third
    check does not reject the name, and the run ends in the catch-all
    with an [error] failure instead of the [params] failure that lists
    the supported providers.  The name [__proto__] ends the same way. *)
Theorem C5_inherited_provider_name :
  own_entry "constructor" PROVIDERS = None /\
  resolveApiKey inherited_world "constructor" = "k" /\
  run inherited_world
  = {| lines := [failure "error" "provider is not a function"];
       issued := [];
       status := Exited 0 |} /\
  own_entry "__proto__" PROVIDERS = None /\
  run inherited_proto_world
  = {| lines := [failure "error" "factory is not a function"];
       issued := [];
       status := Exited 0 |}.
Proof. repeat split. Qed.

(** ** The parameter normalizer *)

Lemma normalizeModel_split (m a b : string) :
  Str.trim m = a ++ "/" ++ b ->
  Str.includes "/" a = false ->
  normalizeModel (JString m)
  = Ok (Some {| provider := Str.toLowerCase a; model := b |}).
Proof.
  intros Ht Ha. unfold normalizeModel.
  assert (Hs : js_String (js_or (JString m) (JString "")) = Ok m).
  { unfold js_or. simpl. now destruct m. }
  rewrite Hs. cbn [ebind]. rewrite Ht.
  assert (Hne : Str.nonempty (a ++ "/" ++ b) = true) by now destruct a.
  rewrite Hne. cbn [negb].
  change (a ++ "/" ++ b) with (a ++ String "/" b).
  rewrite (SplitFacts.split_slash_first _ _ Ha).
  pose proof (SplitFacts.split_slash_not_nil b) as Hn.
  pose proof (SplitFacts.join_split_slash b) as Hj.
  destruct (Str.split_slash b) as [|h t]; [contradiction|].
  now rewrite Hj.
Qed.

Lemma normalizeModel_no_slash (m : string) :
  Str.includes "/" m = false -> normalizeModel (JString m) = Ok None.
Proof.
  intros Hm. unfold normalizeModel.
  assert (Hs : js_String (js_or (JString m) (JString "")) = Ok m).
  { unfold js_or. simpl. now destruct m. }
  rewrite Hs. cbn [ebind].
  destruct (Str.nonempty (Str.trim m)); [|reflexivity]. cbn [negb].
  now rewrite (SplitFacts.split_slash_plain _ (SplitFacts.no_slash_trim _ Hm)).
Qed.

Lemma modelRaw_of_string (params : JsVal) (m : string) :
  js_get params "model" = Ok (JString m) -> modelRaw_of params = Ok (Str.trim m).
Proof.
  intros H. unfold modelRaw_of. rewrite H. cbn [ebind]. unfold js_or. simpl.
  now destruct m.
Qed.

(** The normalizer once the prompt is a string that is not blank. *)
Lemma normalize_string_prompt (w : World) (params : JsVal) (prompt : string)
    (p : Proc) :
  js_get params "prompt" = Ok (JString prompt) ->
  Str.trim prompt <> "" ->
  normalize w params p
  = match baseURL_of params with
    | Throw msg => (Throw msg, p)
    | Ok baseURL =>
        match modelRaw_of params with
        | Throw msg => (Throw msg, p)
        | Ok modelRaw =>
            if negb (Str.nonempty modelRaw)
            then fail "params" "Required parameter 'model' was not provided." p
            else
              match selectProvider baseURL modelRaw with
              | Throw msg => (Throw msg, p)
              | Ok None =>
                  fail "params"
                       "Parameter 'model' must be in the form 'provider/model'." p
              | Ok (Some info) =>
                  resolve w params (JString prompt) baseURL
                          (provider info) (model info) p
              end
        end
    end.
Proof.
  intros Hp Ht. unfold normalize. rewrite mbind_lift, Hp.
  assert (Hor : js_or (JString prompt) (JString "") = JString prompt).
  { unfold js_or. simpl. destruct prompt; [now elim Ht | reflexivity]. }
  rewrite Hor, mbind_lift. cbn [call_trim].
  apply StrFacts.nonempty_true in Ht. rewrite Ht. cbn [negb].
  rewrite mbind_lift. destruct (baseURL_of params) as [baseURL|]; [|reflexivity].
  rewrite mbind_lift. destruct (modelRaw_of params) as [modelRaw|]; [|reflexivity].
  destruct (negb (Str.nonempty modelRaw)); [reflexivity|].
  rewrite mbind_lift.
  now destruct (selectProvider baseURL modelRaw) as [[info|]|].
Qed.



(** The model name when a base URL is given. *)
Lemma local_prefix_stripped (p rest : string) :
  Str.toLowerCase p = "local/" ->
  Str.startsWith "local/" (Str.toLowerCase (p ++ rest)) = true /\
  Str.slice 6 (p ++ rest) = rest.
Proof.
  intros Hp.
  assert (Hlen : String.length p = 6).
  { rewrite <- StrFacts.toLowerCase_length, Hp. reflexivity. }
  split.
  - rewrite StrFacts.toLowerCase_append, Hp. apply StrFacts.startsWith_append.
  - rewrite <- Hlen. apply StrFacts.slice_append.
Qed.

(** With a base URL the resolver goes straight to the executor, with
    the OpenAI-compatible factory and the chat model handle. *)
Lemma resolve_local (w : World) (params prompt : JsVal)
    (baseURL modelName : string) (p : Proc) :
  baseURL <> "" ->
  resolve w params prompt baseURL "local" modelName p
  = execute w params prompt createOpenAICompatible
            (opt_of (resolveApiKey w "local")) (Some baseURL) true modelName p.
Proof.
  intros Hb. apply StrFacts.nonempty_true in Hb. unfold resolve.
  rewrite Hb. cbn [String.eqb Ascii.eqb Bool.eqb negb andb].
  rewrite andb_false_r. cbn [andb].
  rewrite mbind_lift. unfold buildProvider, opt_of. cbn [member own_entry PROVIDERS].
  now rewrite Hb.
Qed.

Lemma settle_issued (out : Exc JsVal * Proc) :
  issued (settle out) = requests (snd out).
Proof. now destruct out as [[v|msg] p]. Qed.

(** The requests of the executor, started with none. *)
Lemma execute_issued (w : World) (params prompt : JsVal) (factory : Factory)
    (key url : option string) (chat : bool) (modelName : string) (rq : Request) :
  In rq (requests (snd (execute w params prompt factory key url chat modelName start))) ->
  rq_factory rq = factory /\ rq_apiKey rq = key /\ rq_baseURL rq = url /\
  rq_chatModel rq = chat /\ rq_model rq = modelName /\ rq_prompt rq = prompt.
Proof.
  destruct (execute_cases w params prompt factory key url chat modelName start)
    as [[msg ->] | (rq' & Hf & [(msg & _ & ->) | (result & raw & flag & _ & _ & _ & ->)])];
    simpl; intros H; try contradiction;
    destruct H as [<- | []]; exact Hf.
Qed.



(** ** The JSON-expectation flag *)

(** The flag, by the kind of the raw value. *)
Lemma expectJson_of_string (s : string) :
  expectJson_of (JString s) = Ok (Str.toLowerCase s =? "true").
Proof.
  unfold expectJson_of, js_or. simpl. destruct s as [|c r]; simpl.
  - reflexivity.
  - now rewrite orb_false_r.
Qed.

Lemma expectJson_of_number (m e : Z) : expectJson_of (JNum m e) = Ok false.
Proof.
  unfold expectJson_of, js_or. simpl. destruct (m =? 0)%Z; simpl; [reflexivity|].
  now rewrite NumFacts.to_string_not_true.
Qed.

Lemma expectJson_of_object (props : list (string * JsVal)) :
  expectJson_of (JObject props) <> Ok true.
Proof.
  unfold expectJson_of, js_or. simpl. destruct (has_own "toString" props); simpl; discriminate.
Qed.

(** The flag is set exactly when the string coercion reads [true]. *)
Lemma expectJson_of_iff (raw : JsVal) :
  expectJson_of raw = Ok true <->
  exists s, js_String raw = Ok s /\ Str.toLowerCase s = "true".
Proof.
  unfold expectJson_of, js_or.
  destruct (truthy raw) eqn:Ht.
  - destruct (js_String raw) as [s|msg] eqn:Hs; simpl.
    + split.
      * intros H. injection H as H. exists s. split; [reflexivity|].
        apply orb_prop in H as [H|H]; [now apply String.eqb_eq|].
        destruct raw as [| |[|]| | | |]; try discriminate H.
        simpl in Hs. now injection Hs as <-.
      * intros (s' & Hs' & Hl). injection Hs' as <-.
        apply String.eqb_eq in Hl. now rewrite Hl.
    + split; [discriminate|]. intros (s' & Hs' & _). discriminate.
  - simpl. split.
    + intros H. injection H as H.
      destruct raw as [| |[|]| | | |]; discriminate.
    + intros (s & Hs & Hl).
      destruct raw as [| |[|]|m e|s0| |]; simpl in Ht, Hs; try discriminate Ht;
        try (injection Hs as <-; discriminate Hl).
      * apply negb_false_iff, Z.eqb_eq in Ht. subst m. simpl in Hs.
        injection Hs as <-. discriminate Hl.
      * destruct s0; [|discriminate Ht]. injection Hs as <-. discriminate Hl.
Qed.

(** C9 (as amended): the flag is set exactly when [String(raw)] reads
    [true] in any letter case.  That holds for the boolean [true], for
    a string equal to [true] up to case and for an array such as
    [["true"]]; it never holds for a number, [null], [undefined],
    [false] or a plain object. *)
Theorem C9_expect_json_flag :
  (forall raw, expectJson_of raw = Ok true <->
               exists s, js_String raw = Ok s /\ Str.toLowerCase s = "true") /\
  (forall s, expectJson_of (JString s) = Ok (Str.toLowerCase s =? "true")) /\
  expectJson_of (JBool true) = Ok true /\
  expectJson_of (JBool false) = Ok false /\
  (forall m e, expectJson_of (JNum m e) = Ok false) /\
  expectJson_of JNull = Ok false /\
  expectJson_of JUndefined = Ok false /\
  (forall props, expectJson_of (JObject props) <> Ok true) /\
  expectJson_of (JArray [JString "true"]) = Ok true.
Proof.
  split; [exact expectJson_of_iff|].
  split; [exact expectJson_of_string|].
  repeat split; try reflexivity.
  - exact expectJson_of_number.
  - exact expectJson_of_object.
Qed.

Lemma C9_expect_json_flag_witness :
  expectJson_of (JString "TRUE") = Ok true /\
  expectJson_of (JNum 1 0) = Ok false.
Proof.
  split.
  - apply (proj2 (proj1 C9_expect_json_flag (JString "TRUE"))).
    exists "TRUE". split; reflexivity.
  - exact (proj1 (proj2 (proj2 (proj2 (proj2 C9_expect_json_flag)))) 1%Z 0%Z).
Defined.

(** C9 (as stated) fails: the array [["true"]] is neither the boolean
    [true] nor a string, and sets the flag. *)
Lemma C9_counterexample :
  ~ (forall raw, expectJson_of raw = Ok true ->
                 raw = JBool true \/
                 exists s, raw = JString s /\ Str.toLowerCase s = "true").
Proof.
  intros H. destruct (H (JArray [JString "true"]) eq_refl) as [H1 | (s & H1 & _)];
    discriminate H1.
Qed.

(** ** The prompt *)



(** * Further properties *)

(** ** The shape of a run *)

Lemma all_chars_weaken (P Q : ascii -> bool) (s : string) :
  (forall c, P c = true -> Q c = true) ->
  Str.all_chars P s = true -> Str.all_chars Q s = true.
Proof.
  intros H. induction s as [|c r IH]; [reflexivity|]. cbn [Str.all_chars].
  intros Hs. apply andb_prop in Hs as [Hc Hr]. now rewrite (H _ Hc), IH.
Qed.

Lemma respond_envelope (flag : bool) (text : string) :
  is_envelope (respond flag text).
Proof.
  unfold respond.
  destruct (flag && negb (truthy (parsed (extractJson text)))).
  - left. do 2 eexists. reflexivity.
  - right. eexists. reflexivity.
Qed.

Lemma failure_envelope (code description : string) :
  is_envelope (failure code description).
Proof. left. now exists code, description. Qed.

(** X1: every run ends with [process.exit(0)], writes only envelopes,
    and issues at most one request; it writes one envelope when
    standard input parses as JSON and two when it does not. *)
Theorem X1_run_shape (w : World) :
  status (run w) = Exited 0 /\
  Forall is_envelope (lines (run w)) /\
  length (issued (run w)) <= 1 /\
  length (lines (run w))
  = match Json.parse (Str.trim (stdin w)) with Some _ => 1 | None => 2 end.
Proof.
  destruct (Json.parse (Str.trim (stdin w))) as [job|] eqn:Hp.
  - destruct (run_parsed w _ Hp)
      as [(c & d & ->) | [(rq & msg & _ & ->) | (rq & r & ps & raw & f & _ & _ & _ & _ & ->)]];
      cbn [status lines issued length]; repeat split; auto;
      constructor; auto using failure_envelope, respond_envelope.
  - destruct (run_unparsed w Hp) as [d ->].
    cbn [status lines issued length]. repeat split; auto.
    constructor; [apply failure_envelope|].
    constructor; [apply failure_envelope|constructor].
Qed.

(** X2: when the request that a run issues is rejected, by the provider
    or by the abort of the timer, the run writes one [error] failure
    that carries the message of the rejection, or [Unknown error] when
    that message is empty. *)
Theorem X2_rejected_request (w : World) (rq : Request) (msg : string) :
  In rq (issued (run w)) ->
  generateText w rq = Throw msg ->
  run w
  = {| lines := [failure "error" (if Str.nonempty msg then msg else "Unknown error")];
       issued := [rq];
       status := Exited 0 |}.
Proof.
  intros Hin G.
  destruct (Json.parse (Str.trim (stdin w))) as [job|] eqn:Hp.
  - destruct (run_parsed w _ Hp)
      as [(c & d & E) | [(rq' & msg' & G' & E)
                        | (rq' & r & ps & raw & f & G' & _ & _ & _ & E)]];
      rewrite E in *; simpl in Hin.
    + contradiction.
    + destruct Hin as [<- | []]. rewrite G in G'. now injection G' as <-.
    + destruct Hin as [<- | []]. congruence.
  - destruct (run_unparsed w Hp) as [d E]. rewrite E in Hin. contradiction.
Qed.

Lemma X2_rejected_request_witness :
  run rejecting_world
  = {| lines := [failure "error" "AI request timed out"];
       issued := [plain_request];
       status := Exited 0 |}.
Proof.
  apply (X2_rejected_request rejecting_world plain_request "AI request timed out").
  - left. reflexivity.
  - reflexivity.
Defined.

(** X3: a success envelope is written only after the one request of the
    run was answered, and it is then the only line. *)
Theorem X3_success_needs_answer (w : World) (data : JsVal) :
  In (success data) (lines (run w)) ->
  exists rq result,
    generateText w rq = Ok result /\
    run w = {| lines := [success data]; issued := [rq]; status := Exited 0 |}.
Proof.
  intros Hin.
  destruct (Json.parse (Str.trim (stdin w))) as [job|] eqn:Hp.
  - destruct (run_parsed w _ Hp)
      as [(c & d & E) | [(rq' & msg' & G' & E)
                        | (rq' & r & ps & raw & f & G' & _ & _ & _ & E)]];
      rewrite E in *; simpl in Hin.
    + destruct Hin as [H | []]. discriminate H.
    + destruct Hin as [H | []]. discriminate H.
    + destruct Hin as [H | []]. exists rq', r. split; [exact G'|]. now rewrite H.
  - destruct (run_unparsed w Hp) as [d E]. rewrite E in Hin. simpl in Hin.
    destruct Hin as [H | [H | []]]; discriminate H.
Qed.

Lemma X3_success_needs_answer_witness :
  exists rq result,
    generateText fenced_world rq = Ok result /\
    run fenced_world
    = {| lines := [success (JObject [("a", JNum 1 0)])]; issued := [rq];
         status := Exited 0 |}.
Proof.
  apply (X3_success_needs_answer fenced_world (JObject [("a", JNum 1 0)])).
  left. reflexivity.
Defined.

(** ** The job on standard input *)

(** X4: when standard input does not parse as JSON, [readJob] writes an
    [input] failure (one text for blank input, another that carries
    the message of the parser) and returns [undefined]; reading
    [params] from that throws, and the catch-all writes a second,
    [error] failure. *)
Theorem X4_unreadable_input (w : World) :
  Json.parse (Str.trim (stdin w)) = None ->
  run w
  = {| lines :=
         [failure "input"
            (if Str.nonempty (Str.trim (stdin w))
             then "Failed to parse JSON input: " ++ syntax_error w (Str.trim (stdin w))
             else "No JSON input received on STDIN.");
          failure "error" "Cannot read properties of undefined (reading 'params')"];
       issued := [];
       status := Exited 0 |}.
Proof.
  intros Hp. unfold run, main, readJob. rewrite Hp.
  now destruct (Str.nonempty (Str.trim (stdin w))).
Qed.

Lemma X4_unreadable_input_witness :
  run bad_input_world
  = {| lines :=
         [failure "input" "Failed to parse JSON input: Unexpected token";
          failure "error" "Cannot read properties of undefined (reading 'params')"];
       issued := [];
       status := Exited 0 |}.
Proof. apply (X4_unreadable_input bad_input_world). reflexivity. Defined.



(** ** The request of a run *)

(** What the request of the executor carries besides its arguments:
    each tuning parameter is the coerced value of its key in the
    parameters. *)
Lemma execute_fields (w : World) (params prompt : JsVal) (factory : Factory)
    (key url : option string) (chat : bool) (modelName : string) (rq : Request) :
  In rq (requests (snd (execute w params prompt factory key url chat modelName start))) ->
  (exists raw, js_get params "temperature" = Ok raw /\
               parseNumber raw JUndefined = Ok (rq_temperature rq)) /\
  (exists raw, js_get params "max_tokens" = Ok raw /\
               parseNumber raw JUndefined = Ok (rq_maxTokens rq)) /\
  (exists raw, js_get params "top_p" = Ok raw /\
               parseNumber raw JUndefined = Ok (rq_topP rq)) /\
  (exists raw, js_get params "stop_sequences" = Ok raw /\
               parseStopSequences raw = Ok (rq_stopSequences rq)) /\
  (exists raw, js_get params "system_prompt" = Ok raw /\
               (if truthy raw then (s <- js_String raw ;; Ok (JString s))
                else Ok JUndefined) = Ok (rq_system rq)) /\
  (exists raw, js_get params "timeout_ms" = Ok raw /\
               parseNumber raw (JNum 60000 0) = Ok (rq_timeoutMs rq)).
Proof.
  unfold execute.
  do 14 (step; [|intros []]).
  unfold mbind, await_generateText, writeExit.
  match goal with
  | |- context [generateText w ?r] => destruct (generateText w r)
  end; simpl; intros [<- | []]; cbn [rq_temperature rq_maxTokens rq_topP
    rq_stopSequences rq_system rq_timeoutMs]; repeat split; eauto.
Qed.

(** A request leaves the resolver only for a provider of the table, and
    only with a key or a base URL. *)
Lemma resolve_issued (w : World) (params prompt : JsVal)
    (baseURL providerName modelName : string) (rq : Request) :
  In rq (requests (snd (resolve w params prompt baseURL providerName modelName start))) ->
  (exists factory,
      own_entry providerName PROVIDERS = Some factory /\ rq_factory rq = factory) /\
  rq_apiKey rq = opt_of (resolveApiKey w providerName) /\
  rq_baseURL rq = opt_of baseURL /\
  rq_chatModel rq = (providerName =? "local") /\
  rq_model rq = modelName /\
  rq_prompt rq = prompt /\
  (baseURL <> "" \/ resolveApiKey w providerName <> "") /\
  (providerName = "local" -> baseURL <> "") /\
  In rq (requests (snd (execute w params prompt (rq_factory rq) (rq_apiKey rq)
                                (rq_baseURL rq) (rq_chatModel rq) modelName start))).
Proof.
  unfold resolve.
  destruct ((providerName =? "local") && negb (Str.nonempty baseURL)) eqn:Hl;
    [intros []|].
  destruct (negb (Str.nonempty (resolveApiKey w providerName))
            && negb (Str.nonempty baseURL)
            && negb (existsb (String.eqb providerName) OPTIONAL_KEY_PROVIDERS)) eqn:Hk;
    [intros []|].
  rewrite mbind_lift. unfold buildProvider, member.
  destruct (own_entry providerName PROVIDERS) as [factory|] eqn:Hown.
  - intros Hin. pose proof Hin as Hin'.
    apply execute_issued in Hin as (H1 & H2 & H3 & H4 & H5 & H6).
    rewrite H1, H2, H3, H4.
    repeat split; eauto.
    + cbn [existsb OPTIONAL_KEY_PROVIDERS negb] in Hk. rewrite andb_true_r in Hk.
      apply andb_false_elim in Hk as [Hk|Hk]; apply negb_false_iff in Hk.
      * right. now apply StrFacts.nonempty_true.
      * left. now apply StrFacts.nonempty_true.
    + intros ->. apply StrFacts.nonempty_true.
      cbn [String.eqb Ascii.eqb Bool.eqb andb] in Hl. now apply negb_false_iff in Hl.
  - destruct (providerName =? "constructor"); [intros []|].
    destruct (providerName =? "__proto__"); intros [].
Qed.

(** A request leaves the normalizer only for a prompt that is a string
    and not blank. *)
Lemma normalize_issued (w : World) (params : JsVal) (rq : Request) :
  In rq (requests (snd (normalize w params start))) ->
  exists prompt baseURL modelRaw info,
    js_get params "prompt" = Ok (JString prompt) /\
    Str.trim prompt <> "" /\
    baseURL_of params = Ok baseURL /\
    modelRaw_of params = Ok modelRaw /\
    modelRaw <> "" /\
    selectProvider baseURL modelRaw = Ok (Some info) /\
    In rq (requests (snd (resolve w params (JString prompt) baseURL
                                  (provider info) (model info) start))).
Proof.
  unfold normalize.
  rewrite mbind_lift. destruct (js_get params "prompt") as [v|] eqn:Hp; [|intros []].
  rewrite mbind_lift. unfold js_or.
  destruct (truthy v) eqn:Hv.
  - destruct v as [| | | |s| |]; try (cbn [call_trim]; intros []).
    cbn [call_trim].
    destruct (Str.nonempty (Str.trim s)) eqn:Ht; cbn [negb]; [|intros []].
    rewrite mbind_lift. destruct (baseURL_of params) as [baseURL|]; [|intros []].
    rewrite mbind_lift. destruct (modelRaw_of params) as [modelRaw|]; [|intros []].
    destruct (Str.nonempty modelRaw) eqn:Hm; cbn [negb]; [|intros []].
    rewrite mbind_lift.
    destruct (selectProvider baseURL modelRaw) as [[info|]|] eqn:Hs; try (intros []).
    intros Hin. exists s, baseURL, modelRaw, info.
    repeat split; auto; now apply StrFacts.nonempty_true.
  - cbn [call_trim Str.trim Str.trimStart Str.trimEnd Str.nonempty negb]. intros [].
Qed.

(** The requests of a run are those of the normalizer. *)
Lemma run_issued (w : World) (rq : Request) :
  In rq (issued (run w)) ->
  exists params,
    params_of w = Some params /\
    In rq (requests (snd (normalize w params start))).
Proof.
  intros Hin.
  destruct (Json.parse (Str.trim (stdin w))) as [job|] eqn:Hp.
  - unfold run in Hin. rewrite (main_parsed w _ Hp) in Hin.
    destruct (js_get job "params") as [job_params|] eqn:Hg.
    + exists (js_or job_params (JObject [])). split.
      * unfold params_of. now rewrite Hp, Hg.
      * now rewrite settle_issued in Hin.
    + contradiction.
  - destruct (run_unparsed w Hp) as [d E]. rewrite E in Hin. contradiction.
Qed.

(** Where a request of a run comes from. *)
Lemma run_request (w : World) (rq : Request) :
  In rq (issued (run w)) ->
  exists params prompt baseURL modelRaw info,
    params_of w = Some params /\
    js_get params "prompt" = Ok (JString prompt) /\
    Str.trim prompt <> "" /\
    baseURL_of params = Ok baseURL /\
    modelRaw_of params = Ok modelRaw /\
    modelRaw <> "" /\
    selectProvider baseURL modelRaw = Ok (Some info) /\
    In rq (requests (snd (resolve w params (JString prompt) baseURL
                                  (provider info) (model info) start))).
Proof.
  intros Hin. apply run_issued in Hin as (params & Hpar & Hin).
  apply normalize_issued in Hin
    as (prompt & baseURL & modelRaw & info & H1 & H2 & H3 & H4 & H5 & H6 & H7).
  exists params, prompt, baseURL, modelRaw, info. repeat split; assumption.
Qed.



Lemma opt_of_some (v k : string) : opt_of v = Some k -> k = v /\ v <> "".
Proof.
  unfold opt_of. destruct v; [discriminate|]. intros [= <-].
  split; [reflexivity|discriminate].
Qed.

Lemma opt_of_none (v : string) : opt_of v = None -> v = "".
Proof. unfold opt_of. destruct v; [reflexivity|discriminate]. Qed.

Lemma selected_local (baseURL modelRaw : string) (info : ModelInfo) :
  selectProvider baseURL modelRaw = Ok (Some info) ->
  baseURL <> "" -> provider info = "local".
Proof.
  intros Hs Hb. apply StrFacts.nonempty_true in Hb. unfold selectProvider in Hs.
  rewrite Hb in Hs. now injection Hs as <-.
Qed.

Lemma local_factory (name : string) :
  own_entry name PROVIDERS = Some createOpenAICompatible -> name = "local".
Proof.
  unfold PROVIDERS. cbn [own_entry].
  repeat match goal with
         | |- context [if ?k =? name then _ else _] =>
             destruct (String.eqb_spec k name) as [<-|_]; [try discriminate; auto|]
         end.
  discriminate.
Qed.

(** X7: every request carries a base URL or a non-empty API key, and
    never an empty key; the OpenAI-compatible factory and its chat
    model handle are used exactly when a base URL is given. *)
Theorem X7_request_credentials (w : World) (rq : Request) :
  In rq (issued (run w)) ->
  (rq_baseURL rq = None -> exists key, rq_apiKey rq = Some key /\ key <> "") /\
  (forall key, rq_apiKey rq = Some key -> key <> "") /\
  (rq_factory rq = createOpenAICompatible <-> rq_baseURL rq <> None) /\
  rq_chatModel rq = match rq_baseURL rq with Some _ => true | None => false end.
Proof.
  intros Hin.
  apply run_request in Hin
    as (params & prompt & baseURL & modelRaw & info & _ & _ & _ & _ & _ & _ & Hs & Hin).
  apply resolve_issued in Hin
    as ((factory & Hown & Hf) & Hk & Hu & Hc & _ & _ & Hcred & Hloc & _).
  assert (Hiff : provider info = "local" <-> baseURL <> "").
  { split; [exact Hloc | intros Hb; exact (selected_local _ _ _ Hs Hb)]. }
  repeat split.
  - intros Hnone. rewrite Hu in Hnone. apply opt_of_none in Hnone.
    destruct Hcred as [Hb|Hkey]; [contradiction|].
    exists (resolveApiKey w (provider info)). split; [|exact Hkey].
    rewrite Hk. unfold opt_of.
    apply StrFacts.nonempty_true in Hkey. now rewrite Hkey.
  - intros key Hkey. rewrite Hk in Hkey. apply opt_of_some in Hkey as [-> H]. exact H.
  - intros Hc'. rewrite Hf in Hc'. rewrite Hc' in Hown. apply local_factory in Hown.
    apply Hiff in Hown. rewrite Hu. unfold opt_of.
    apply StrFacts.nonempty_true in Hown. now rewrite Hown.
  - intros Hb. rewrite Hu in Hb.
    assert (Hne : baseURL <> "") by (intros ->; now apply Hb).
    apply Hiff in Hne. rewrite Hne in Hown. rewrite Hf.
    cbn in Hown. now injection Hown as <-.
  - rewrite Hc, Hu. unfold opt_of.
    destruct (Str.nonempty baseURL) eqn:Hb.
    + apply StrFacts.nonempty_true in Hb. apply Hiff in Hb. now rewrite Hb.
    + apply String.eqb_neq. intros Hl. apply Hiff in Hl.
      apply StrFacts.nonempty_true in Hl. congruence.
Qed.

Lemma X7_request_credentials_witness :
  (exists key, rq_apiKey plain_request = Some key /\ key <> "") /\
  rq_chatModel local_request = true.
Proof.
  split.
  - apply (proj1 (X7_request_credentials fenced_world plain_request
                    (or_introl eq_refl))).
    reflexivity.
  - apply (proj2 (proj2 (proj2 (X7_request_credentials local_world local_request
                                  (or_introl eq_refl))))).
Defined.

(** *** A hosted provider: no base URL and a model identifier [a/b] *)

(** The parameters are read off the job text; the properties of this
    section are made for the job texts that [Json.parse] reads exactly. *)
Section HostedProvider.

Variables (w : World) (params : JsVal) (prompt m a b : string).

Hypothesis Hexact : exact_input w = true.
Hypothesis Hparams : params_of w = Some params.
Hypothesis Hprompt : js_get params "prompt" = Ok (JString prompt).
Hypothesis Hblank : Str.trim prompt <> "".
Hypothesis Hurl : baseURL_of params = Ok "".
Hypothesis Hmodel : js_get params "model" = Ok (JString m).
Hypothesis Hsplit : Str.trim m = a ++ "/" ++ b.
Hypothesis Hfirst : Str.includes "/" a = false.

Lemma run_resolve :
  run w = settle (resolve w params (JString prompt) "" (Str.toLowerCase a) b start).
Proof using Hparams Hprompt Hblank Hurl Hmodel Hsplit Hfirst.
  rewrite (run_of_params _ _ Hparams), (normalize_string_prompt _ _ _ _ Hprompt Hblank).
  rewrite Hurl, (modelRaw_of_string _ _ Hmodel).
  assert (Hsel : selectProvider "" (Str.trim m)
                 = Ok (Some {| provider := Str.toLowerCase a; model := b |})).
  { unfold selectProvider. cbn [Str.nonempty].
    apply normalizeModel_split; [|exact Hfirst]. now rewrite FenceFacts.trim_idem. }
  rewrite Hsel, Hsplit. now destruct a.
Qed.





End HostedProvider.





(** X12: a request with a base URL carries the value of
    [LOCAL_API_KEY] as its key when that is set and not empty, else
    the value of [AI_API_KEY] when that is, and no key otherwise: with
    a base URL the key is optional, and the variable of another
    provider is never used. *)
Theorem X12_local_key_optional (w : World) (rq : Request) :
  In rq (issued (run w)) ->
  rq_baseURL rq <> None ->
  rq_apiKey rq
  = opt_of (or_else (env w "LOCAL_API_KEY") (or_else (env w "AI_API_KEY") "")).
Proof.
  intros Hin Hb.
  apply run_request in Hin
    as (params & prompt & baseURL & modelRaw & info & _ & _ & _ & _ & _ & _ & Hs & Hin).
  apply resolve_issued in Hin as (_ & Hk & Hu & _).
  rewrite Hu in Hb.
  assert (Hne : baseURL <> "") by (intros ->; now apply Hb).
  rewrite Hk, (selected_local _ _ _ Hs Hne). reflexivity.
Qed.

Lemma X12_local_key_optional_witness :
  rq_apiKey local_request = None /\ rq_apiKey keyed_local_request = Some "g".
Proof.
  split.
  - apply (X12_local_key_optional local_world local_request);
      [left; reflexivity | discriminate].
  - apply (X12_local_key_optional keyed_local_world keyed_local_request);
      [left; reflexivity | discriminate].
Defined.



Lemma parseNumber_absent (value fallback : JsVal) :
  absent value -> parseNumber value fallback = Ok fallback.
Proof. now intros [-> | [-> | ->]]. Qed.



(** ** Number coercion *)

Module NumberFacts.

Import Json.

Lemma digits_step (acc : Z) (cnt : nat) (c : ascii) (r : string) :
  is_digit c = true ->
  digits acc cnt (String c r) = digits (acc * 10 + digit_val c) (S cnt) r.
Proof. intros H. cbn [digits]. now rewrite H. Qed.

Lemma digits_stop (acc : Z) (cnt : nat) (rest : string) :
  stops rest -> digits acc cnt rest = (acc, cnt, rest).
Proof. destruct rest as [|c r]; [reflexivity|]. simpl. now intros ->. Qed.

(** Reading a run of digits shifts what was read before. *)
Lemma digits_shift (s : string) :
  Str.all_chars is_digit s = true ->
  forall rest, stops rest ->
  forall acc cnt,
    digits acc cnt (s ++ rest)
    = ((acc * 10 ^ Z.of_nat (String.length s) + fst (fst (digits 0 0 s)))%Z,
       cnt + String.length s, rest).
Proof.
  induction s as [|c r IH]; intros Hs rest Hr acc cnt.
  - cbn [append String.length digits]. rewrite (digits_stop _ _ _ Hr).
    cbn [fst Z.of_nat]. rewrite Z.pow_0_r, Z.mul_1_r, Z.add_0_r, Nat.add_0_r.
    reflexivity.
  - cbn [Str.all_chars] in Hs. apply andb_prop in Hs as [Hc Hrest].
    change (String c r ++ rest) with (String c (r ++ rest)).
    rewrite (digits_step acc cnt c (r ++ rest) Hc), (digits_step 0 0 c r Hc).
    rewrite (IH Hrest rest Hr).
    pose proof (IH Hrest "" I (0 * 10 + digit_val c)%Z 1) as H0.
    rewrite StrFacts.append_nil_r in H0. rewrite H0.
    cbn [fst String.length].
    rewrite Nat2Z.inj_succ, Z.pow_succ_r by lia.
    replace (cnt + S (String.length r)) with (S cnt + String.length r) by lia.
    do 2 f_equal. ring.
Qed.

(** The digits of a numeral, read from the left with an accumulator. *)
Lemma digits_acc (d : Decimal.uint) (acc : positive) (cnt : nat) :
  digits (Zpos acc) cnt (NilEmpty.string_of_uint d)
  = (Zpos (Pos.of_uint_acc d acc),
     cnt + String.length (NilEmpty.string_of_uint d), "").
Proof.
  revert acc cnt.
  induction d as [|d IH|d IH|d IH|d IH|d IH|d IH|d IH|d IH|d IH|d IH];
    intros acc cnt;
    [simpl; now rewrite Nat.add_0_r|..];
    cbn [NilEmpty.string_of_uint Pos.of_uint_acc String.length];
    rewrite digits_step by reflexivity;
    match goal with
    | |- digits ?z _ _ = (Zpos (Pos.of_uint_acc _ ?p), _, _) =>
        replace z with (Zpos p) by (unfold digit_val; simpl N_of_ascii; lia)
    end;
    rewrite IH; do 2 f_equal; lia.
Qed.

Lemma digits_uint (d : Decimal.uint) (cnt : nat) :
  digits 0 cnt (NilEmpty.string_of_uint d)
  = (Z.of_N (N.of_uint d), cnt + String.length (NilEmpty.string_of_uint d), "").
Proof.
  unfold N.of_uint. revert cnt.
  induction d as [|d IH|d IH|d IH|d IH|d IH|d IH|d IH|d IH|d IH|d IH];
    intros cnt;
    [simpl; now rewrite Nat.add_0_r|..];
    cbn [NilEmpty.string_of_uint Pos.of_uint String.length];
    rewrite digits_step by reflexivity;
    [ change (0 * 10 + digit_val "0")%Z with 0%Z; rewrite IH
    | change (0 * 10 + digit_val "1")%Z with 1%Z; rewrite digits_acc
    | change (0 * 10 + digit_val "2")%Z with 2%Z; rewrite digits_acc
    | change (0 * 10 + digit_val "3")%Z with 3%Z; rewrite digits_acc
    | change (0 * 10 + digit_val "4")%Z with 4%Z; rewrite digits_acc
    | change (0 * 10 + digit_val "5")%Z with 5%Z; rewrite digits_acc
    | change (0 * 10 + digit_val "6")%Z with 6%Z; rewrite digits_acc
    | change (0 * 10 + digit_val "7")%Z with 7%Z; rewrite digits_acc
    | change (0 * 10 + digit_val "8")%Z with 8%Z; rewrite digits_acc
    | change (0 * 10 + digit_val "9")%Z with 9%Z; rewrite digits_acc ];
    do 2 f_equal; lia.
Qed.

Lemma numeral_digits (d : Decimal.uint) :
  Str.all_chars is_digit (NilEmpty.string_of_uint d) = true.
Proof. induction d; simpl; auto. Qed.

Lemma numeral_value (d : Decimal.uint) :
  fst (fst (digits 0 0 (NilEmpty.string_of_uint d))) = Z.of_N (N.of_uint d).
Proof. now rewrite digits_uint. Qed.

Lemma numeral_length (d : Decimal.uint) :
  String.length (NilEmpty.string_of_uint d) = Decimal.nb_digits d.
Proof. induction d; simpl; auto. Qed.

Lemma nat_digits_nonempty (n : N) : Num.nat_digits n <> "".
Proof.
  unfold Num.nat_digits. destruct n as [|p]; [discriminate|].
  cbn [N.to_uint]. pose proof (DecimalPos.Unsigned.to_uint_nonnil p) as H.
  destruct (Pos.to_uint p); [now elim H|..]; discriminate.
Qed.

Lemma digit_plain (c : ascii) : is_digit c = true -> plain_char c = true.
Proof. unfold plain_char. now intros ->. Qed.

Lemma plain_not_space (c : ascii) : plain_char c = true -> Str.is_space c = false.
Proof. destruct c as [[] [] [] [] [] [] [] []]; try reflexivity; discriminate. Qed.

Lemma plain_lower (c : ascii) : plain_char c = true -> Str.lower_char c = c.
Proof. destruct c as [[] [] [] [] [] [] [] []]; try reflexivity; discriminate. Qed.

Lemma trimEnd_plain (s : string) :
  Str.all_chars plain_char s = true -> Str.trimEnd s = s.
Proof.
  induction s as [|c r IH]; [reflexivity|]. cbn [Str.all_chars Str.trimEnd].
  intros H. apply andb_prop in H as [Hc Hr]. rewrite (IH Hr).
  destruct r; [now rewrite (plain_not_space _ Hc) | reflexivity].
Qed.

Lemma trim_plain (s : string) :
  Str.all_chars plain_char s = true -> Str.trim s = s.
Proof.
  intros H. unfold Str.trim.
  assert (Hs : Str.trimStart s = s).
  { destruct s as [|c r]; [reflexivity|]. cbn [Str.all_chars] in H.
    apply andb_prop in H as [Hc _]. cbn [Str.trimStart].
    now rewrite (plain_not_space _ Hc). }
  rewrite Hs. now apply trimEnd_plain.
Qed.

(** Digits and points are read as a decimal literal, not as a literal
    of another radix. *)
Lemma of_string_plain (s : string) :
  Str.all_chars plain_char s = true -> s <> "" ->
  ToNumber.of_string s = ToNumber.unsigned_decimal false s.
Proof.
  intros H Hne. unfold ToNumber.of_string. rewrite (trim_plain _ H).
  destruct s as [|c r]; [now elim Hne|].
  cbn [Str.all_chars] in H. apply andb_prop in H as [Hc Hr].
  assert (Hp : forall x, plain_char x = false ->
                 Str.startsWith (String "0" (String x ""))
                                (Str.toLowerCase (String c r)) = false).
  { intros x Hx. cbn [Str.toLowerCase]. rewrite StrFacts.startsWith_cons.
    destruct r as [|c2 r2]; [now rewrite andb_false_r|].
    cbn [Str.all_chars] in Hr. apply andb_prop in Hr as [Hc2 _].
    cbn [Str.toLowerCase]. rewrite StrFacts.startsWith_cons, (plain_lower _ Hc2).
    destruct (Ascii.eqb_spec x c2) as [->|_]; [congruence|].
    now rewrite andb_false_r. }
  rewrite !Hp by reflexivity.
  destruct (Ascii.eqb_spec c "-") as [->|_]; [discriminate Hc|].
  destruct (Ascii.eqb_spec c "+") as [->|_]; [discriminate Hc|].
  reflexivity.
Qed.

(** The numeral of a natural number. *)
Lemma of_string_numeral (n : N) :
  ToNumber.of_string (Num.nat_digits n) = Finite (Z.of_N n) 0.
Proof.
  pose proof (nat_digits_nonempty n) as Hne.
  unfold Num.nat_digits in *.
  pose proof (numeral_digits (N.to_uint n)) as Hd.
  rewrite of_string_plain;
    [|exact (all_chars_weaken _ _ _ digit_plain Hd)|exact Hne].
  unfold ToNumber.unsigned_decimal.
  assert (Hinf : (NilEmpty.string_of_uint (N.to_uint n) =? "Infinity") = false).
  { apply String.eqb_neq. intros E. rewrite E in Hd. discriminate Hd. }
  rewrite Hinf, digits_uint, DecimalN.Unsigned.of_to. cbn [Nat.add].
  destruct (NilEmpty.string_of_uint (N.to_uint n)) as [|c r]; [now elim Hne|].
  cbn [String.length Nat.add parse_exp]. now rewrite Z.sub_0_r.
Qed.

(** An integer part, a point and any fraction digits. *)
Lemma of_string_fraction (n : N) (f : Decimal.uint) :
  ToNumber.of_string (Num.nat_digits n ++ "." ++ NilEmpty.string_of_uint f)
  = Finite (Z.of_N n * 10 ^ Z.of_nat (Decimal.nb_digits f) + Z.of_N (N.of_uint f))
           (- Z.of_nat (Decimal.nb_digits f)).
Proof.
  set (sa := Num.nat_digits n). set (sf := NilEmpty.string_of_uint f).
  assert (Ha : Str.all_chars is_digit sa = true) by apply numeral_digits.
  assert (Hf : Str.all_chars is_digit sf = true) by apply numeral_digits.
  assert (Hne : sa <> "") by apply nat_digits_nonempty.
  assert (Hall : Str.all_chars plain_char (sa ++ "." ++ sf) = true).
  { rewrite !StrFacts.all_chars_append.
    rewrite (all_chars_weaken _ _ _ digit_plain Ha),
            (all_chars_weaken _ _ _ digit_plain Hf).
    reflexivity. }
  rewrite of_string_plain; [|exact Hall|now destruct sa].
  unfold ToNumber.unsigned_decimal.
  assert (Hinf : (sa ++ "." ++ sf =? "Infinity") = false).
  { apply String.eqb_neq. intros E. rewrite E in Hall. discriminate Hall. }
  rewrite Hinf.
  rewrite (digits_shift sa Ha ("." ++ sf) eq_refl).
  cbn [append]. cbn [Ascii.eqb Bool.eqb].
  pose proof (digits_shift sf Hf "" I (0 * 10 ^ Z.of_nat (String.length sa)
                                        + fst (fst (digits 0 0 sa)))%Z 0) as E.
  rewrite StrFacts.append_nil_r in E. rewrite E.
  destruct sa as [|c r] eqn:Esa; [now elim Hne|].
  cbn [String.length Nat.add parse_exp]. rewrite <- Esa.
  unfold sa, sf. rewrite !numeral_value, numeral_length.
  unfold Num.nat_digits. rewrite numeral_value, DecimalN.Unsigned.of_to.
  f_equal; lia.
Qed.

Lemma lower_not_zero (c : ascii) :
  (c =? "0")%char = false -> (Str.lower_char c =? "0")%char = false.
Proof. destruct c as [[] [] [] [] [] [] [] []]; try reflexivity; discriminate. Qed.

(** A text that does not begin like a number is not a number. *)
Lemma of_string_not_numeric (s : string) (c : ascii) (r : string) :
  Str.trim s = String c r ->
  is_digit c = false -> c <> "."%char -> c <> "+"%char -> c <> "-"%char ->
  ToNumber.of_string s = NotFinite.
Proof.
  intros Ht Hd Hdot Hplus Hminus. unfold ToNumber.of_string. rewrite Ht.
  assert (H0 : (c =? "0")%char = false).
  { destruct (Ascii.eqb_spec c "0") as [->|_]; [discriminate Hd | reflexivity]. }
  assert (Hp : forall x,
             Str.startsWith (String "0" (String x ""))
                            (Str.toLowerCase (String c r)) = false).
  { intros x. cbn [Str.toLowerCase]. rewrite StrFacts.startsWith_cons.
    rewrite Ascii.eqb_sym, (lower_not_zero _ H0). reflexivity. }
  rewrite !Hp.
  apply Ascii.eqb_neq in Hdot, Hplus, Hminus. rewrite Hplus, Hminus.
  unfold ToNumber.unsigned_decimal.
  destruct (String c r =? "Infinity"); [reflexivity|].
  cbn [digits]. rewrite Hd, Hdot. reflexivity.
Qed.

End NumberFacts.



(** X16: [parseNumber] reads the decimal numeral of a natural number as
    that number, and a numeral followed by a point and fraction digits
    as the decimal they denote.  The bounds keep the number within the
    integers and the decimals of at most 15 significant digits, which
    a double holds exactly or prints back unchanged. *)
Theorem X16_parseNumber_decimal (fallback : JsVal) (n : N) (f : Decimal.uint) :
  ((n < 2 ^ 53)%N ->
   parseNumber (JString (Num.nat_digits n)) fallback = Ok (JNum (Z.of_N n) 0)) /\
  (String.length (Num.nat_digits n) + Decimal.nb_digits f <= 15 ->
   parseNumber (JString (Num.nat_digits n ++ "." ++ NilEmpty.string_of_uint f)) fallback
   = Ok (JNum (Z.of_N n * 10 ^ Z.of_nat (Decimal.nb_digits f) + Z.of_N (N.of_uint f))
              (- Z.of_nat (Decimal.nb_digits f)))).
Proof.
  pose proof (NumberFacts.nat_digits_nonempty n) as Hne.
  split; intros _.
  - destruct (Num.nat_digits n) as [|c r] eqn:E; [now elim Hne|].
    cbn [parseNumber js_Number ebind]. rewrite <- E.
    now rewrite NumberFacts.of_string_numeral.
  - assert (Hs : exists c r,
               Num.nat_digits n ++ "." ++ NilEmpty.string_of_uint f = String c r).
    { destruct (Num.nat_digits n) as [|c r]; [now elim Hne|].
      now exists c, (r ++ "." ++ NilEmpty.string_of_uint f). }
    destruct Hs as (c & r & Hs). unfold parseNumber. rewrite Hs.
    cbn [js_Number ebind]. rewrite <- Hs.
    now rewrite NumberFacts.of_string_fraction.
Qed.

Lemma X16_parseNumber_decimal_witness :
  parseNumber (JString "60000") JUndefined = Ok (JNum 60000 0) /\
  parseNumber (JString "0.25") JUndefined = Ok (JNum 25 (-2)).
Proof.
  split.
  - apply (proj1 (X16_parseNumber_decimal JUndefined 60000 Decimal.Nil)). reflexivity.
  - apply (proj2 (X16_parseNumber_decimal JUndefined 0
                    (Decimal.D2 (Decimal.D5 Decimal.Nil)))).
    simpl. lia.
Defined.

(** ** Stop sequences *)

Module StopFacts.

Lemma push_chars (P : ascii -> bool) (c : ascii) (pieces : list string) :
  P c = true ->
  Forall (fun s => Str.all_chars P s = true) pieces ->
  Forall (fun s => Str.all_chars P s = true) (Str.push c pieces).
Proof.
  intros Hc Hp. destruct pieces as [|h t]; simpl.
  - constructor; [|constructor]. simpl. now rewrite Hc.
  - inversion Hp; subst. constructor; [|assumption]. simpl. now rewrite Hc.
Qed.

(** No piece of a split holds a separator. *)
Lemma split_stop_pieces (s : string) :
  Forall (fun piece => Str.all_chars not_separator piece = true) (Str.split_stop s).
Proof.
  assert (H : forall n s, String.length s <= n ->
               Forall (fun piece => Str.all_chars not_separator piece = true)
                      (Str.split_stop s)).
  { induction n as [|n IH]; intros s0 Hlen.
    - destruct s0; [|simpl in Hlen; lia]. repeat constructor.
    - destruct s0 as [|c r]; [repeat constructor|]. simpl in Hlen.
      cbn [Str.split_stop].
      destruct ((c =? "010")%char || (c =? ",")%char) eqn:Hsep.
      + constructor; [reflexivity|]. apply IH. lia.
      + assert (Hc : not_separator c = true) by (unfold not_separator; now rewrite Hsep).
        destruct (c =? "013")%char.
        * destruct r as [|c1 r1]; [apply push_chars; [exact Hc|apply IH; simpl; lia]|].
          destruct (Ascii.eqb_spec c1 "010") as [->|Hne].
          -- constructor; [reflexivity|]. apply IH. simpl in Hlen. lia.
          -- assert (E : match c1 with
                         | "010"%char => "" :: Str.split_stop r1
                         | _ => Str.push c (Str.split_stop (String c1 r1))
                         end = Str.push c (Str.split_stop (String c1 r1))).
             { destruct c1 as [[] [] [] [] [] [] [] []]; try reflexivity. now elim Hne. }
             rewrite E. apply push_chars; [exact Hc|apply IH; lia].
        * apply push_chars; [exact Hc|apply IH; lia]. }
  apply (H (String.length s)). lia.
Qed.

Lemma all_chars_trimStart (P : ascii -> bool) (s : string) :
  Str.all_chars P s = true -> Str.all_chars P (Str.trimStart s) = true.
Proof.
  induction s as [|c r IH]; [reflexivity|]. intros H. cbn [Str.trimStart].
  destruct (Str.is_space c); [|exact H].
  cbn [Str.all_chars] in H. apply andb_prop in H as [_ Hr]. now apply IH.
Qed.

Lemma all_chars_trimEnd (P : ascii -> bool) (s : string) :
  Str.all_chars P s = true -> Str.all_chars P (Str.trimEnd s) = true.
Proof.
  induction s as [|c r IH]; [reflexivity|]. intros H.
  cbn [Str.all_chars] in H. apply andb_prop in H as [Hc Hr]. specialize (IH Hr).
  cbn [Str.trimEnd]. destruct (Str.trimEnd r) as [|a b].
  - destruct (Str.is_space c); [reflexivity|]. simpl. now rewrite Hc.
  - cbn [Str.all_chars] in *. now rewrite Hc.
Qed.

Lemma all_chars_trim (P : ascii -> bool) (s : string) :
  Str.all_chars P s = true -> Str.all_chars P (Str.trim s) = true.
Proof. intros H. unfold Str.trim. now apply all_chars_trimEnd, all_chars_trimStart. Qed.

(** The parts the string branch keeps. *)
Lemma string_parts (s : string) :
  Forall (fun part => part <> "" /\ Str.trim part = part /\
                      Str.all_chars not_separator part = true)
         (filter Str.nonempty (map Str.trim (Str.split_stop s))).
Proof.
  pose proof (split_stop_pieces s) as H.
  induction H as [|piece rest Hp _ IH]; [constructor|].
  cbn [map filter]. destruct (Str.nonempty (Str.trim piece)) eqn:Hn; [|exact IH].
  constructor; [|exact IH]. split; [now apply StrFacts.nonempty_true|].
  split; [apply FenceFacts.trim_idem | now apply all_chars_trim].
Qed.

Lemma filter_nonempty (l : list string) :
  Forall (fun s => s <> "") (filter Str.nonempty l).
Proof.
  induction l as [|x r IH]; [constructor|]. cbn [filter].
  destruct (Str.nonempty x) eqn:H; [|exact IH].
  constructor; [now apply StrFacts.nonempty_true | exact IH].
Qed.

End StopFacts.

(** X17: what [parseStopSequences] returns, when it returns, is
    [undefined] or a list of strings none of which is empty; for an
    input that is not a list the list is not empty either, and each of
    its strings is trimmed and holds neither a comma nor a line
    feed. *)
Theorem X17_stop_sequences_shape (value result : JsVal) :
  parseStopSequences value = Ok result ->
  result = JUndefined \/
  exists parts,
    result = JArray (map JString parts) /\
    Forall (fun s => s <> "") parts /\
    ((forall elems, value <> JArray elems) ->
     parts <> [] /\
     Forall (fun s => Str.trim s = s /\ Str.all_chars not_separator s = true) parts).
Proof.
  unfold parseStopSequences. destruct (truthy value); cbn [negb].
  2:{ intros [= <-]. now left. }
  destruct value as [| |b|m e|s|elems|props].
  1-5,7:
    match goal with
    | |- (s <- ?e ;; _) = _ -> _ => destruct e as [str|]; cbn [ebind]; [|discriminate]
    end;
    pose proof (StopFacts.string_parts str) as Hparts;
    destruct (filter Str.nonempty (map Str.trim (Str.split_stop str))) as [|p ps] eqn:E;
    intros [= <-]; [now left|right];
    exists (p :: ps); (split; [reflexivity|]);
    (split; [eapply Forall_impl; [|exact Hparts]; now intros x (H1 & _)|]);
    intros _; (split; [discriminate|]);
    eapply Forall_impl; [|exact Hparts]; now intros x (_ & H2).
  destruct (map_String elems) as [strs|]; cbn [ebind]; [|discriminate].
  intros [= <-]. right. exists (filter Str.nonempty strs).
  split; [reflexivity|]. split; [apply StopFacts.filter_nonempty|].
  intros H. now elim (H elems).
Qed.

Lemma X17_stop_sequences_shape_witness :
  JArray [JString "a"; JString "b"] = JUndefined \/
  exists parts,
    JArray [JString "a"; JString "b"] = JArray (map JString parts) /\
    Forall (fun s => s <> "") parts /\
    ((forall elems, JString " a ,, b" <> JArray elems) ->
     parts <> [] /\
     Forall (fun s => Str.trim s = s /\ Str.all_chars not_separator s = true) parts).
Proof.
  apply (X17_stop_sequences_shape (JString " a ,, b") (JArray [JString "a"; JString "b"])).
  reflexivity.
Defined.

Module JoinFacts.

Import StopFacts.

Lemma split_stop_cr (b : ascii) (r : string) :
  not_separator b = true ->
  Str.split_stop (String "013" (String b r))
  = Str.push "013" (Str.split_stop (String b r)).
Proof.
  intros Hb. cbn [Str.split_stop Ascii.eqb Bool.eqb orb].
  destruct b as [[] [] [] [] [] [] [] []]; try reflexivity. discriminate Hb.
Qed.

Lemma split_stop_plain (s : string) :
  Str.all_chars not_separator s = true -> Str.split_stop s = [s].
Proof.
  induction s as [|c r IH]; [reflexivity|]. intros H.
  cbn [Str.all_chars] in H. apply andb_prop in H as [Hc Hr]. specialize (IH Hr).
  destruct (Ascii.eqb_spec c "013") as [->|Hne].
  - destruct r as [|b r']; [reflexivity|].
    cbn [Str.all_chars] in Hr. apply andb_prop in Hr as [Hb _].
    now rewrite (split_stop_cr _ _ Hb), IH.
  - cbn [Str.split_stop]. unfold not_separator in Hc. apply negb_true_iff in Hc.
    rewrite Hc. apply Ascii.eqb_neq in Hne. now rewrite Hne, IH.
Qed.

Lemma trimEnd_tail (a : ascii) (q : string) :
  Str.trimEnd (String a q) = String a q -> Str.trimEnd q = q.
Proof.
  cbn [Str.trimEnd]. destruct (Str.trimEnd q) as [|x y] eqn:E.
  - destruct (Str.is_space a); [discriminate|]. now intros [= <-].
  - now intros [= <-].
Qed.

Lemma split_stop_head (p : string) (c : ascii) (rest : string) :
  Str.all_chars not_separator p = true -> Str.trimEnd p = p ->
  not_separator c = false ->
  Str.split_stop (p ++ String c rest) = p :: Str.split_stop rest.
Proof.
  intros Hp Ht Hc. induction p as [|a q IH].
  - cbn [append Str.split_stop]. unfold not_separator in Hc.
    apply negb_false_iff in Hc. now rewrite Hc.
  - cbn [Str.all_chars] in Hp. apply andb_prop in Hp as [Ha Hq].
    specialize (IH Hq (trimEnd_tail _ _ Ht)).
    change (String a q ++ String c rest) with (String a (q ++ String c rest)).
    destruct (Ascii.eqb_spec a "013") as [->|Hne].
    + destruct q as [|b q']; [discriminate Ht|].
      cbn [Str.all_chars] in Hq. apply andb_prop in Hq as [Hb _].
      change (String b q' ++ String c rest) with (String b (q' ++ String c rest)) in *.
      now rewrite (split_stop_cr _ _ Hb), IH.
    + cbn [Str.split_stop]. unfold not_separator in Ha. apply negb_true_iff in Ha.
      rewrite Ha. apply Ascii.eqb_neq in Hne. now rewrite Hne, IH.
Qed.

Lemma trimEnd_append (x h : string) :
  h <> "" -> Str.trimEnd h = h -> Str.trimEnd (x ++ h) = x ++ h.
Proof.
  intros Hne Hh. induction x as [|a x' IH]; [exact Hh|].
  change (String a x' ++ h) with (String a (x' ++ h)). cbn [Str.trimEnd]. rewrite IH.
  destruct (x' ++ h) eqn:E; [|reflexivity].
  destruct x'; [now elim Hne | discriminate E].
Qed.

Lemma blank_trimEnd (x : string) :
  Str.all_chars Str.is_space x = true -> Str.trimEnd x = "".
Proof.
  induction x as [|a r IH]; [reflexivity|]. cbn [Str.all_chars]. intros H.
  apply andb_prop in H as [Ha Hr]. cbn [Str.trimEnd]. now rewrite (IH Hr), Ha.
Qed.

Lemma trimmed_end (h : string) : Str.trim h = h -> Str.trimEnd h = h.
Proof. intros H. rewrite <- H at 1. unfold Str.trim. rewrite FenceFacts.trimEnd_idem. exact H. Qed.

Lemma trim_padded (x h : string) :
  Str.all_chars Str.is_space x = true -> Str.trim h = h -> Str.trim (x ++ h) = h.
Proof.
  intros Hx Hh. unfold Str.trim.
  rewrite (FenceFacts.trimEnd_nil_trimStart _ _ (blank_trimEnd _ Hx)). exact Hh.
Qed.

Section Joined.

Variables (c : ascii) (pad : string).

Hypothesis Hc : not_separator c = false.
Hypothesis Hpad : Str.all_chars (fun x => Str.is_space x && not_separator x) pad = true.

Lemma split_joined (t : list string) :
  forall h x,
    Str.all_chars (fun x => Str.is_space x && not_separator x) x = true ->
    clean_part h -> Forall clean_part t ->
    filter Str.nonempty
           (map Str.trim (Str.split_stop (x ++ Str.join (String c pad) (h :: t))))
    = h :: t.
Proof.
  induction t as [|h2 t' IH]; intros h x Hx (Hne & Htrim & Hsep) Ht.
  - assert (Hx1 : Str.all_chars Str.is_space x = true).
    { eapply all_chars_weaken; [|exact Hx]. intros a Ha.
      now apply andb_prop in Ha as [Ha _]. }
    assert (Hx2 : Str.all_chars not_separator x = true).
    { eapply all_chars_weaken; [|exact Hx]. intros a Ha.
      now apply andb_prop in Ha as [_ Ha]. }
    unfold Str.join. cbn [String.concat].
    rewrite split_stop_plain by (now rewrite StrFacts.all_chars_append, Hx2, Hsep).
    cbn [map filter]. rewrite (trim_padded _ _ Hx1 Htrim).
    apply StrFacts.nonempty_true in Hne. now rewrite Hne.
  - assert (Hx1 : Str.all_chars Str.is_space x = true).
    { eapply all_chars_weaken; [|exact Hx]. intros a Ha.
      now apply andb_prop in Ha as [Ha _]. }
    assert (Hx2 : Str.all_chars not_separator x = true).
    { eapply all_chars_weaken; [|exact Hx]. intros a Ha.
      now apply andb_prop in Ha as [_ Ha]. }
    unfold Str.join in *. rewrite SplitFacts.concat_cons by discriminate.
    change (String c pad ++ String.concat (String c pad) (h2 :: t'))
      with (String c (pad ++ String.concat (String c pad) (h2 :: t'))).
    rewrite <- StrFacts.append_assoc.
    rewrite split_stop_head;
      [| now rewrite StrFacts.all_chars_append, Hx2, Hsep
       | apply trimEnd_append; [exact Hne | now apply trimmed_end]
       | exact Hc].
    cbn [map filter]. rewrite (trim_padded _ _ Hx1 Htrim).
    pose proof Hne as Hne'. apply StrFacts.nonempty_true in Hne'. rewrite Hne'.
    inversion Ht as [|? ? Hh2 Ht']; subst.
    now rewrite (IH h2 pad Hpad Hh2 Ht').
Qed.

End Joined.

End JoinFacts.

Lemma map_String_strings (l : list string) : map_String (map JString l) = Ok l.
Proof.
  induction l as [|x r IH]; [reflexivity|].
  cbn [map map_String js_String ebind]. now rewrite IH.
Qed.

Lemma filter_clean (l : list string) :
  Forall clean_part l -> filter Str.nonempty l = l.
Proof.
  induction 1 as [|x r (Hne & _) _ IH]; [reflexivity|]. cbn [filter].
  apply StrFacts.nonempty_true in Hne. now rewrite Hne, IH.
Qed.

(** X18: a list of stop sequences that are not empty, are trimmed and
    hold no separator is read back from its written form: joined by a
    comma or a line feed, with or without blanks behind it, the text
    gives the same result as the list itself. *)
Theorem X18_stop_sequences_round_trip (sep : string) (parts : list string) :
  list_separator sep -> parts <> [] -> Forall clean_part parts ->
  parseStopSequences (JString (Str.join sep parts)) = Ok (JArray (map JString parts)) /\
  parseStopSequences (JArray (map JString parts)) = Ok (JArray (map JString parts)).
Proof.
  intros (c & pad & -> & Hc & Hpad) Hne Hall. split.
  - destruct parts as [|h t]; [now elim Hne|].
    inversion Hall as [|? ? Hh Ht]; subst.
    pose proof (JoinFacts.split_joined c pad Hc Hpad t h "" eq_refl Hh Ht) as E.
    cbn [append] in E.
    assert (Hj : Str.nonempty (Str.join (String c pad) (h :: t)) = true).
    { destruct Hh as (Hh & _). unfold Str.join.
      destruct t; [cbn; now apply StrFacts.nonempty_true|].
      rewrite SplitFacts.concat_cons by discriminate. now destruct h. }
    unfold parseStopSequences. cbn [truthy]. rewrite Hj.
    cbn [negb js_String ebind]. now rewrite E.
  - unfold parseStopSequences. cbn [truthy negb].
    rewrite map_String_strings. cbn [ebind]. now rewrite (filter_clean _ Hall).
Qed.

Lemma X18_stop_sequences_round_trip_witness :
  parseStopSequences (JString "END, STOP, ###")
  = Ok (JArray [JString "END"; JString "STOP"; JString "###"]).
Proof.
  apply (proj1 (X18_stop_sequences_round_trip ", " ["END"; "STOP"; "###"]
                  (ex_intro _ ","%char (ex_intro _ " " (conj eq_refl (conj eq_refl eq_refl))))
                  ltac:(discriminate)
                  ltac:(repeat constructor; discriminate))).
Defined.

(** ** Fenced blocks *)

Module FenceSound.

Import StrFacts Fence.

Lemma startsWith_true (p s : string) :
  Str.startsWith p s = true -> exists post, s = p ++ post.
Proof.
  revert s. induction p as [|c p IH]; intros s H.
  - now exists s.
  - destruct s as [|d s]; [discriminate H|].
    rewrite startsWith_cons in H. apply andb_prop in H as [Hc Hp].
    apply Ascii.eqb_eq in Hc. subst d.
    destruct (IH _ Hp) as [post ->]. now exists post.
Qed.

(** A text is its leading white space followed by the rest. *)
Lemma trimStart_split (s : string) :
  exists ws, s = ws ++ Str.trimStart s /\ Str.all_chars Str.is_space ws = true.
Proof.
  induction s as [|c r (ws & E & Hws)]; [now exists ""|].
  cbn [Str.trimStart]. destruct (Str.is_space c) eqn:Hc.
  - exists (String c ws). split; [cbn [append]; now rewrite <- E|].
    cbn [Str.all_chars]. now rewrite Hc.
  - now exists "".
Qed.

Lemma closes_sound (s : string) :
  closes s = true ->
  exists ws post, s = ws ++ ticks ++ post /\ Str.all_chars Str.is_space ws = true.
Proof.
  rewrite FenceFacts.closes_spec. intros H.
  destruct (startsWith_true _ _ H) as [post E].
  destruct (trimStart_split s) as (ws & Es & Hws).
  exists ws, post. split; [now rewrite <- E|exact Hws].
Qed.

Lemma lazy_capture_sound (s cap : string) :
  lazy_capture s = Some cap -> exists rest, s = cap ++ rest /\ closes rest = true.
Proof.
  revert cap. induction s as [|c r IH]; intros cap.
  - cbn [lazy_capture]. destruct (closes "") eqn:E; [|discriminate].
    intros [= <-]. now exists "".
  - cbn [lazy_capture]. destruct (closes (String c r)) eqn:E.
    + intros [= <-]. now exists (String c r).
    + destruct (lazy_capture r) as [cap'|]; [|discriminate].
      intros [= <-]. destruct (IH _ eq_refl) as (rest & -> & Hr).
      now exists rest.
Qed.

Lemma star_space_sound (A : Type) (s : string) (k : string -> option A) (x : A) :
  star_space s k = Some x ->
  exists ws rest,
    s = ws ++ rest /\ Str.all_chars Str.is_space ws = true /\ k rest = Some x.
Proof.
  induction s as [|c r IH]; cbn [star_space].
  - intros H. now exists "", "".
  - destruct (Str.is_space c) eqn:Hc.
    + destruct (star_space r k) as [y|] eqn:E.
      * intros [= <-]. destruct (IH eq_refl) as (ws & rest & -> & Hws & Hk).
        exists (String c ws), rest. repeat split; auto.
        cbn [Str.all_chars]. now rewrite Hc.
      * intros H. now exists "", (String c r).
    + intros H. now exists "", (String c r).
Qed.

Lemma after_tag_sound (s cap : string) :
  after_tag s = Some cap ->
  exists ws1 ws2 post,
    s = ws1 ++ cap ++ ws2 ++ ticks ++ post /\
    Str.all_chars Str.is_space ws1 = true /\ Str.all_chars Str.is_space ws2 = true.
Proof.
  intros H. apply star_space_sound in H as (ws1 & rest & -> & H1 & H).
  apply lazy_capture_sound in H as (rest' & -> & H).
  apply closes_sound in H as (ws2 & post & -> & H2).
  now exists ws1, ws2, post.
Qed.

(** The text behind a prefix that matches up to letter case. *)
Lemma startsWith_lower (p s : string) :
  Str.startsWith p (Str.toLowerCase s) = true ->
  exists tag, s = tag ++ Str.slice (String.length p) s /\ Str.toLowerCase tag = p.
Proof.
  revert s. induction p as [|c p IH]; intros s H.
  - now exists "".
  - destruct s as [|d s]; [discriminate H|].
    cbn [Str.toLowerCase] in H. rewrite startsWith_cons in H.
    apply andb_prop in H as [Hc Hp]. apply Ascii.eqb_eq in Hc.
    destruct (IH _ Hp) as (tag & E & Hl).
    exists (String d tag). cbn [String.length Str.slice append Str.toLowerCase].
    split; [now rewrite <- E | now rewrite Hl, <- Hc].
Qed.

Lemma match_here_sound (s cap : string) :
  match_here s = Some cap ->
  exists tag ws1 ws2 post,
    s = ticks ++ tag ++ ws1 ++ cap ++ ws2 ++ ticks ++ post /\
    (tag = "" \/ Str.toLowerCase tag = "json") /\
    Str.all_chars Str.is_space ws1 = true /\ Str.all_chars Str.is_space ws2 = true.
Proof.
  unfold match_here. destruct (Str.startsWith ticks s) eqn:Ht; [|discriminate].
  destruct (startsWith_true _ _ Ht) as [s1 ->]. rewrite FenceFacts.slice_ticks.
  assert (Hplain : after_tag s1 = Some cap ->
                   exists tag ws1 ws2 post,
                     ticks ++ s1 = ticks ++ tag ++ ws1 ++ cap ++ ws2 ++ ticks ++ post /\
                     (tag = "" \/ Str.toLowerCase tag = "json") /\
                     Str.all_chars Str.is_space ws1 = true /\
                     Str.all_chars Str.is_space ws2 = true).
  { intros H. apply after_tag_sound in H as (ws1 & ws2 & post & -> & H1 & H2).
    exists "", ws1, ws2, post. repeat split; auto. }
  destruct (Str.startsWith "json" (Str.toLowerCase s1)) eqn:Hj; [|exact Hplain].
  destruct (after_tag (Str.slice 4 s1)) as [cap'|] eqn:Ha; [|exact Hplain].
  intros [= <-]. destruct (startsWith_lower _ _ Hj) as (tag & E & Hl).
  apply after_tag_sound in Ha as (ws1 & ws2 & post & Ea & H1 & H2).
  exists tag, ws1, ws2, post. repeat split; auto.
  rewrite E at 1. cbn [String.length]. now rewrite Ea.
Qed.

Lemma search_sound (s cap : string) :
  search s = Some cap ->
  exists pre tag ws1 ws2 post,
    s = pre ++ ticks ++ tag ++ ws1 ++ cap ++ ws2 ++ ticks ++ post /\
    (tag = "" \/ Str.toLowerCase tag = "json") /\
    Str.all_chars Str.is_space ws1 = true /\ Str.all_chars Str.is_space ws2 = true.
Proof.
  induction s as [|c r IH]; cbn [search].
  - destruct (match_here "") eqn:E; [|discriminate]. intros [= <-].
    apply match_here_sound in E as (tag & ws1 & ws2 & post & E & H).
    now exists "", tag, ws1, ws2, post.
  - destruct (match_here (String c r)) eqn:E.
    + intros [= <-].
      apply match_here_sound in E as (tag & ws1 & ws2 & post & E & H).
      now exists "", tag, ws1, ws2, post.
    + intros H. destruct (IH H) as (pre & tag & ws1 & ws2 & post & -> & H').
      now exists (String c pre), tag, ws1, ws2, post.
Qed.

Lemma includes_here (p post : string) : Str.includes p (p ++ post) = true.
Proof.
  destruct (p ++ post) eqn:E; cbn [Str.includes]; rewrite <- E, startsWith_append;
    reflexivity.
Qed.

Lemma includes_append (p a b : string) :
  Str.includes p b = true -> Str.includes p (a ++ b) = true.
Proof.
  intros H. induction a as [|c r IH]; [exact H|].
  change (String c r ++ b) with (String c (r ++ b)).
  rewrite FenceFacts.includes_cons, IH. apply orb_true_r.
Qed.

(** Behind the first three code units of a text with two fences there
    is still a fence. *)
Lemma fence_behind (a x b : string) :
  Str.includes ticks (Str.slice 3 (a ++ ticks ++ x ++ ticks ++ b)) = true.
Proof.
  assert (H : forall y, Str.includes ticks (y ++ x ++ ticks ++ b) = true).
  { intros y. rewrite <- append_assoc. apply includes_append, includes_here. }
  destruct a as [|c1 [|c2 [|c3 a']]].
  - apply (H "").
  - apply (H "`").
  - apply (H "``").
  - cbn [append Str.slice]. apply includes_append, includes_here.
Qed.

Lemma two_fences (pre rest a x b : string) :
  pre ++ ticks ++ rest = a ++ ticks ++ x ++ ticks ++ b ->
  Str.includes ticks (pre ++ "``") = false ->
  Str.includes ticks rest = true.
Proof.
  revert a. induction pre as [|c pre IH]; intros a E Hpre.
  - cbn [append] in E. rewrite <- (FenceFacts.slice_ticks rest).
    rewrite E. apply fence_behind.
  - change (String c pre ++ "``") with (String c (pre ++ "``")) in Hpre.
    apply FenceFacts.includes_cons_false in Hpre as [Hhead Hrest].
    destruct a as [|c' a'].
    + exfalso.
      assert (Hs : Str.startsWith ticks (String c pre ++ ticks ++ rest) = true).
      { rewrite E. apply (startsWith_append ticks). }
      rewrite FenceFacts.fence_split in Hs.
      change (String c pre ++ "``") with (String c (pre ++ "``")) in Hs.
      rewrite startsWith_append_long in Hs; [congruence|].
      simpl. rewrite length_append. simpl. lia.
    + change (String c pre ++ ticks ++ rest) with (String c (pre ++ ticks ++ rest)) in E.
      change (String c' a' ++ ticks ++ x ++ ticks ++ b)
        with (String c' (a' ++ ticks ++ x ++ ticks ++ b)) in E.
      injection E as _ E. now apply (IH a').
Qed.

(** A single fence is no match. *)
Lemma single_fence (pre rest : string) :
  Str.includes ticks (pre ++ "``") = false ->
  Str.includes ticks rest = false ->
  search (pre ++ ticks ++ rest) = None.
Proof.
  intros Hpre Hrest. destruct (search (pre ++ ticks ++ rest)) as [cap|] eqn:E;
    [|reflexivity].
  apply search_sound in E as (a & tag & ws1 & ws2 & post & E & _).
  assert (E' : pre ++ ticks ++ rest
               = a ++ ticks ++ (tag ++ ws1 ++ cap ++ ws2) ++ ticks ++ post).
  { rewrite E. now rewrite !append_assoc. }
  rewrite (two_fences _ _ _ _ _ E' Hpre) in Hrest. discriminate Hrest.
Qed.

End FenceSound.

(** X19: when the pattern of [extractJson] matches, the captured text
    stands in the trimmed response between an opening fence, an
    optional [json] tag in any letter case and blanks on one side, and
    blanks and a closing fence on the other; the candidate is the
    captured text, trimmed. *)
Theorem X19_fenced_candidate_enclosed (text inner : string) :
  Fence.search (Str.trim text) = Some inner ->
  candidate_of text = Str.trim inner /\
  exists pre tag ws1 ws2 post,
    Str.trim text = pre ++ "```" ++ tag ++ ws1 ++ inner ++ ws2 ++ "```" ++ post /\
    (tag = "" \/ Str.toLowerCase tag = "json") /\
    Str.all_chars Str.is_space ws1 = true /\
    Str.all_chars Str.is_space ws2 = true.
Proof.
  intros H. split.
  - unfold candidate_of. now rewrite H.
  - now apply FenceSound.search_sound.
Qed.

Lemma X19_fenced_candidate_enclosed_witness :
  candidate_of fenced_answer = quoted "{'a':1}".
Proof.
  apply (proj1 (X19_fenced_candidate_enclosed fenced_answer (quoted "{'a':1}") eq_refl)).
Defined.

(** X20: a response with one fence only, as when the closing fence was
    cut off, has no fenced block: the candidate is the whole trimmed
    response, and when the response begins with the fence no JSON is
    found in it. *)
Theorem X20_unclosed_fence (text pre rest : string) :
  Str.trim text = pre ++ "```" ++ rest ->
  Str.includes "```" (pre ++ "``") = false ->
  Str.includes "```" rest = false ->
  candidate_of text = Str.trim text /\
  (pre = "" -> extractJson text = no_json).
Proof.
  intros Ht Hpre Hrest.
  assert (Hc : candidate_of text = Str.trim text).
  { pose proof (FenceSound.single_fence _ _ Hpre Hrest) as Hs.
    unfold Fence.ticks in Hs. unfold candidate_of. now rewrite Ht, Hs. }
  split; [exact Hc|]. intros ->. unfold extractJson. rewrite Hc, Ht.
  destruct text; [discriminate Ht|]. reflexivity.
Qed.

Lemma X20_unclosed_fence_witness :
  extractJson ("```json" ++ LF ++ quoted "{'a': 1") = no_json.
Proof.
  apply (proj2 (X20_unclosed_fence ("```json" ++ LF ++ quoted "{'a': 1") ""
                  ("json" ++ LF ++ quoted "{'a': 1") eq_refl eq_refl eq_refl) eq_refl).
Defined.

(** ** The response interpreter *)

Module ExtractFacts.

Import Json.

Lemma parse_value_shape (f : nat) (s rest : string) (v : JsVal) :
  Str.startsWith "{" s || Str.startsWith "[" s = true ->
  parse_value f s = Done v rest -> container v.
Proof.
  intros Hb. destruct f as [|f]; [discriminate|].
  destruct s as [|c r]; [discriminate Hb|].
  rewrite !StrFacts.startsWith_cons, !StrFacts.startsWith_nil, !andb_true_r in Hb.
  apply orb_prop in Hb as [Hb|Hb]; apply Ascii.eqb_eq in Hb; subst c; simpl;
    destruct (skip_ws r) as [|c1 r1]; try discriminate.
  - destruct (c1 =? "}")%char.
    + intros H. injection H as <- _. left. now exists [].
    + intros H. apply (proj2 (JsonFacts.parse_loops_container f)) in H as [ps ->].
      left. now exists ps.
  - destruct (c1 =? "]")%char.
    + intros H. injection H as <- _. right. now exists [].
    + intros H. apply (proj1 (JsonFacts.parse_loops_container f)) in H as [l ->].
      right. now exists l.
Qed.

Lemma parse_shape (s : string) (v : JsVal) :
  bracketed s = true -> parse s = Some v -> container v.
Proof.
  intros Hb. unfold parse, parse_text.
  destruct (parse_value (2 * String.length s + 1) s) as [v0 rest| |] eqn:E;
    try discriminate.
  destruct (skip_ws rest); try discriminate.
  intros H. injection H as <-. eapply parse_value_shape; [|exact E].
  unfold bracketed in Hb. apply orb_prop in Hb as [Hb|Hb];
    apply andb_prop in Hb as [Hb _]; rewrite Hb; auto using orb_true_r.
Qed.

Lemma container_truthy (v : JsVal) : container v -> truthy v = true.
Proof. now intros [[ps ->] | [l ->]]. Qed.

Lemma candidate_trimmed (text : string) :
  Str.trim (candidate_of text) = candidate_of text.
Proof.
  unfold candidate_of. destruct (Fence.search (Str.trim text));
    apply FenceFacts.trim_idem.
Qed.

Lemma candidate_of_trim (text : string) :
  candidate_of (Str.trim text) = candidate_of text.
Proof. unfold candidate_of. now rewrite FenceFacts.trim_idem. Qed.

Lemma candidate_of_blank (text : string) :
  Str.nonempty text = false -> candidate_of text = "".
Proof. intros H. apply StrFacts.nonempty_false in H. now subst. Qed.

(** [extractJson] by its candidate alone. *)
Lemma extractJson_candidate (text : string) :
  extractJson text
  = let candidate := candidate_of text in
    if bracketed candidate then
      match parse candidate with
      | Some v => {| parsed := v; jsonText := JString candidate |}
      | None => {| parsed := JNull; jsonText := JString candidate |}
      end
    else no_json.
Proof.
  unfold extractJson. cbv zeta.
  destruct (Str.nonempty text) eqn:Ht; cbn [negb].
  - destruct (Str.nonempty (candidate_of text)) eqn:Hc; cbn [negb].
    + now destruct (bracketed (candidate_of text)).
    + apply StrFacts.nonempty_false in Hc. now rewrite Hc.
  - now rewrite (candidate_of_blank _ Ht).
Qed.

End ExtractFacts.



(** X22: the data of a success envelope is an object or an array,
    never a bare string, number, boolean or [null]. *)
Theorem X22_success_data_container (w : World) (data : JsVal) :
  In (success data) (lines (run w)) -> container data.
Proof.
  intros Hin.
  assert (Hr : forall flag text, respond flag text = success data -> container data).
  { intros flag text. unfold respond.
    rewrite ExtractFacts.extractJson_candidate. cbv zeta.
    destruct (bracketed (candidate_of text)) eqn:Hb.
    - destruct (Json.parse (candidate_of text)) as [v|] eqn:Hp; cbn [parsed jsonText truthy].
      + rewrite (ExtractFacts.container_truthy _ (ExtractFacts.parse_shape _ _ Hb Hp)).
        rewrite andb_false_r. intros [= <-].
        now apply (ExtractFacts.parse_shape _ _ Hb).
      + destruct flag; cbn [andb negb]; [discriminate|].
        intros [= <-]. left. eexists. reflexivity.
    - cbn [no_json parsed jsonText truthy].
      destruct flag; cbn [andb negb]; [discriminate|].
      intros [= <-]. left. eexists. reflexivity. }
  destruct (Json.parse (Str.trim (stdin w))) as [job|] eqn:Hp.
  - destruct (run_parsed w _ Hp)
      as [(c & d & E) | [(rq' & msg' & G' & E)
                        | (rq' & r & ps & raw & f & G' & _ & _ & _ & E)]];
      rewrite E in Hin; simpl in Hin.
    + destruct Hin as [H | []]. discriminate H.
    + destruct Hin as [H | []]. discriminate H.
    + destruct Hin as [H | []]. now apply Hr in H.
  - destruct (run_unparsed w Hp) as [d E]. rewrite E in Hin. simpl in Hin.
    destruct Hin as [H | [H | []]]; discriminate H.
Qed.

Lemma X22_success_data_container_witness :
  container (JObject [("a", JNum 1 0)]).
Proof.
  apply (X22_success_data_container fenced_world (JObject [("a", JNum 1 0)])).
  left. reflexivity.
Defined.



(** ** The written line *)

Module StringifyFacts.

Import Stringify.

Lemma quote_char_line (c : ascii) : Str.all_chars not_lf (quote_char c) = true.
Proof. destruct c as [[] [] [] [] [] [] [] []]; reflexivity. Qed.

Lemma quote_line (s : string) : Str.all_chars not_lf (quote s) = true.
Proof.
  unfold quote. cbn [Str.all_chars]. rewrite StrFacts.all_chars_append.
  cbn. rewrite andb_true_r.
  induction s as [|c r IH]; [reflexivity|]. cbn [quote_chars].
  now rewrite StrFacts.all_chars_append, quote_char_line, IH.
Qed.

Lemma number_line (m e : Z) : Str.all_chars not_lf (Num.to_string m e) = true.
Proof.
  pose proof (NumFacts.to_string_chars m e) as H.
  induction (Num.to_string m e) as [|c r IH]; [reflexivity|].
  cbn [Str.all_chars] in *. apply andb_prop in H as [Hc Hr].
  rewrite (IH Hr), andb_true_r.
  destruct c as [[] [] [] [] [] [] [] []]; try reflexivity; discriminate Hc.
Qed.

Lemma join_line (parts : list string) :
  Forall (fun s => Str.all_chars not_lf s = true) parts ->
  Str.all_chars not_lf (Str.join "," parts) = true.
Proof.
  unfold Str.join. induction 1 as [|x r Hx Hr IH]; [reflexivity|].
  destruct r as [|y r']; [exact Hx|].
  rewrite SplitFacts.concat_cons by discriminate.
  now rewrite !StrFacts.all_chars_append, Hx, IH.
Qed.

Lemma insert_index_all (A : Type) (P : A -> Prop) (n : N) (a : A) (l : list (N * A)) :
  P a -> Forall (fun e => P (snd e)) l -> Forall (fun e => P (snd e)) (insert_index n a l).
Proof.
  intros Ha. induction 1 as [|[m b] rest Hb Hr IH]; cbn [insert_index].
  - now repeat constructor.
  - destruct (n <=? m)%N; repeat constructor; auto.
Qed.

Lemma own_keys_order_all (A : Type) (P : string * A -> Prop) (entries : list (string * A)) :
  Forall P entries -> Forall P (own_keys_order entries).
Proof.
  intros H. unfold own_keys_order. apply Forall_app. split.
  - apply Forall_map.
    induction H as [|[k a] rest Hk Hr IH]; cbn [indexed]; [constructor|].
    destruct (array_index k); [|exact IH].
    now apply (insert_index_all _ P).
  - unfold named. apply Forall_forall. intros x Hx. apply filter_In in Hx as [Hx _].
    revert x Hx. now apply Forall_forall.
Qed.

Lemma members_line (entries : list (string * option string)) :
  Forall (fun kv => forall s, snd kv = Some s -> Str.all_chars not_lf s = true) entries ->
  Forall (fun s => Str.all_chars not_lf s = true) (members entries).
Proof.
  induction 1 as [|[k [s|]] rest Hk Hr IH]; cbn [members]; [constructor| |exact IH].
  constructor; [|exact IH].
  rewrite !StrFacts.all_chars_append, quote_line, (Hk s eq_refl). reflexivity.
Qed.

Lemma serialize_line (v : JsVal) (s : string) :
  serialize v = Some s -> Str.all_chars not_lf s = true.
Proof.
  revert v s. fix IH 1. intros [| |[|]|m e|str|elems|props] s; cbn [serialize].
  - discriminate.
  - now intros [= <-].
  - now intros [= <-].
  - now intros [= <-].
  - intros [= <-]. apply number_line.
  - intros [= <-]. apply quote_line.
  - intros [= <-]. change ("[" ++ ?x) with (String "[" x). cbn [Str.all_chars].
    rewrite StrFacts.all_chars_append. cbn. rewrite andb_true_r.
    apply join_line. apply Forall_map.
    revert elems. fix IHl 1. intros [|x rest]; constructor; [|apply IHl].
    destruct (serialize x) as [sx|] eqn:E; [now apply (IH x)|reflexivity].
  - intros [= <-]. cbn [append Str.all_chars].
    rewrite StrFacts.all_chars_append. cbn. rewrite andb_true_r.
    apply join_line, members_line, own_keys_order_all.
    revert props. fix IHl 1. intros [|[k x] rest]; constructor; [|apply IHl].
    cbn [snd]. intros sx E. now apply (IH x).
Qed.

End StringifyFacts.

(** X24: what [writeExit] hands to the stream for a payload is one
    line: the serialized payload, which holds no line feed, and one
    line feed behind it. *)
Theorem X24_one_line_per_envelope (payload : JsVal) :
  exists s,
    written_line payload = s ++ LF /\ Str.all_chars not_lf s = true.
Proof.
  unfold written_line. destruct (Stringify.serialize payload) as [s|] eqn:E.
  - exists s. split; [reflexivity|]. now apply (StringifyFacts.serialize_line payload).
  - now exists "undefined".
Qed.

Module RoundTrip.

Import Json Stringify.

(** More fuel does not change a result. *)
Lemma parse_more_fuel (f : nat) :
  (forall s, parse_value f s <> Starved -> parse_value (S f) s = parse_value f s) /\
  (forall s acc, parse_elements f s acc <> Starved ->
                 parse_elements (S f) s acc = parse_elements f s acc) /\
  (forall s acc, parse_members f s acc <> Starved ->
                 parse_members (S f) s acc = parse_members f s acc).
Proof.
  induction f as [|f (IHv & IHe & IHm)]; [repeat split; intros; now elim H|].
  split; [|split].
  - intros s. cbn [parse_value].
    destruct (skip_ws s) as [|c r0]; [reflexivity|].
    destruct (c =? "{")%char.
    { destruct (skip_ws r0) as [|c1 r1]; [reflexivity|].
      destruct (c1 =? "}")%char; [reflexivity|]. apply IHm. }
    destruct (c =? "[")%char.
    { destruct (skip_ws r0) as [|c1 r1]; [reflexivity|].
      destruct (c1 =? "]")%char; [reflexivity|]. apply IHe. }
    reflexivity.
  - intros s acc. cbn [parse_elements].
    destruct (parse_value f s) as [v0 rest| |] eqn:E.
    + rewrite (IHv s) by (rewrite E; discriminate). rewrite E.
      destruct (skip_ws rest) as [|c r0]; [reflexivity|].
      destruct (c =? ",")%char; [apply IHe|reflexivity].
    + rewrite (IHv s) by (rewrite E; discriminate). now rewrite E.
    + intros H. now elim H.
  - intros s acc. cbn [parse_members].
    destruct (skip_ws s) as [|q r0]; [reflexivity|].
    destruct (q =? "034")%char; [|reflexivity].
    destruct (parse_chars r0) as [k r1| |]; try reflexivity.
    destruct (skip_ws r1) as [|c2 r2]; [reflexivity|].
    destruct (c2 =? ":")%char; [|reflexivity].
    destruct (parse_value f r2) as [v0 r3| |] eqn:E.
    + rewrite (IHv r2) by (rewrite E; discriminate). rewrite E.
      destruct (skip_ws r3) as [|c4 r4]; [reflexivity|].
      destruct (c4 =? ",")%char; [apply IHm|reflexivity].
    + rewrite (IHv r2) by (rewrite E; discriminate). now rewrite E.
    + intros H. now elim H.
Qed.

Lemma parse_value_fuel (f g : nat) (s : string) :
  parse_value f s <> Starved -> f <= g -> parse_value g s = parse_value f s.
Proof.
  intros H Hle. induction Hle as [|g _ IH]; [reflexivity|].
  rewrite <- IH. apply (proj1 (parse_more_fuel g)). now rewrite IH.
Qed.

(** A result under some fuel is the result of [parse_text]. *)
Lemma parse_text_fuel (f : nat) (s : string) (v : JsVal) (r : string) :
  parse_value f s = Done v r -> parse_text s = Done v r.
Proof.
  intros H. unfold parse_text.
  destruct (Nat.le_gt_cases f (2 * String.length s + 1)) as [Hle|Hgt].
  - rewrite (parse_value_fuel f) by (rewrite ?H; auto; discriminate). exact H.
  - rewrite <- H. symmetry. apply parse_value_fuel; [|lia].
    apply JsonFacts.parse_text_not_starved.
Qed.

(** Reading a quoted code unit gives the code unit back. *)
Lemma parse_chars_quote_char (c : ascii) (x : string) :
  parse_chars (quote_char c ++ x) = cons_done c (parse_chars x).
Proof. destruct c as [[] [] [] [] [] [] [] []]; reflexivity. Qed.

Lemma parse_chars_quote (s rest : string) :
  parse_chars (quote_chars s ++ String "034" rest) = Done s rest.
Proof.
  induction s as [|c r IH]; [reflexivity|].
  cbn [quote_chars]. rewrite StrFacts.append_assoc, parse_chars_quote_char.
  now rewrite IH.
Qed.

Lemma quote_append (s rest : string) :
  quote s ++ rest = String "034" (quote_chars s ++ String "034" rest).
Proof. unfold quote. cbn [append]. now rewrite StrFacts.append_assoc. Qed.

(** A string literal is read back as its string. *)
Lemma parse_value_quote (f : nat) (s rest : string) :
  parse_value (S f) (quote s ++ rest) = Done (JString s) rest.
Proof.
  rewrite quote_append. cbn [parse_value skip_ws is_ws Ascii.eqb Bool.eqb orb].
  now rewrite parse_chars_quote.
Qed.

(** The serialized envelopes. *)
Lemma serialize_failure (code description : string) :
  serialize (failure code description)
  = Some (quoted "{'xy':1,'code':" ++ quote code
          ++ quoted ",'description':" ++ quote description ++ "}").
Proof.
  unfold failure, quote. cbn. rewrite !StrFacts.append_assoc. cbn.
  rewrite ?StrFacts.append_assoc. reflexivity.
Qed.

Lemma serialize_text (text : string) :
  serialize (success (JObject [("text", JString text)]))
  = Some (quoted "{'xy':1,'code':0,'data':{'text':" ++ quote text ++ "}}").
Proof.
  unfold success, quote. cbn. rewrite !StrFacts.append_assoc. cbn.
  rewrite ?StrFacts.append_assoc. reflexivity.
Qed.

Lemma parse_failure_text (code description rest : string) :
  parse_value 8 (quoted "{'xy':1,'code':" ++ quote code
                 ++ quoted ",'description':" ++ quote description ++ String "}" rest)
  = Done (failure code description) rest.
Proof.
  rewrite !quote_append.
  repeat (cbn; rewrite ?StrFacts.startsWith_cons, ?parse_chars_quote).
  reflexivity.
Qed.

Lemma parse_text_text (text rest : string) :
  parse_value 8 (quoted "{'xy':1,'code':0,'data':{'text':" ++ quote text
                 ++ String "}" (String "}" rest))
  = Done (success (JObject [("text", JString text)])) rest.
Proof.
  rewrite !quote_append.
  repeat (cbn; rewrite ?StrFacts.startsWith_cons, ?parse_chars_quote).
  reflexivity.
Qed.

End RoundTrip.

(** X25: a failure envelope, and a success envelope whose data is the
    text of the response, read back by [JSON.parse] from the line that
    [writeExit] writes, is the envelope that was written. *)
Theorem X25_envelope_round_trip :
  (forall code description,
      Json.parse (written_line (failure code description))
      = Some (failure code description)) /\
  (forall text,
      Json.parse (written_line (success (JObject [("text", JString text)])))
      = Some (success (JObject [("text", JString text)]))).
Proof.
  split.
  - intros code description. unfold written_line.
    rewrite RoundTrip.serialize_failure. unfold Json.parse.
    rewrite !StrFacts.append_assoc. change ("}" ++ LF) with (String "}" LF).
    now rewrite (RoundTrip.parse_text_fuel 8 _ _ _
                   (RoundTrip.parse_failure_text code description LF)).
  - intros text. unfold written_line.
    rewrite RoundTrip.serialize_text. unfold Json.parse.
    rewrite !StrFacts.append_assoc.
    change ("}}" ++ LF) with (String "}" (String "}" LF)).
    now rewrite (RoundTrip.parse_text_fuel 8 _ _ _
                   (RoundTrip.parse_text_text text LF)).
Qed.
